(** * ImageUploader: a shallow embedding of [src/imageUploader.js]

    The widget controller of the image uploader is embedded as a small
    state/trace/exception monad over the two instance fields the logic
    uses ([this.files] and [this.uploading]).  Every call of a lifecycle
    hook is recorded as an [Event]; the externally supplied upload
    function is an oracle that tells, for its k-th invocation on a file,
    which percentages it passes to the progress callback and how its
    promise settles.

    What is left out: the DOM (previews, button state, styles), which the
    logic never reads back, on a widget that has not been destroyed;
    hooks are observers (they return normally, and only the upload
    function and the upload-progress hook may call back into the
    widget, in the runs of [Async]); numbers are the integers ([Z]) or
    rationals ([Q]) they denote.

    In the controller of the first part a method runs to its end before
    the next one is called: while [startUpload] waits for a promise of
    the upload function, nothing happens but the progress reports of
    that invocation, and the run either gets every promise it awaits
    settled or stops for good at one that never settles, leaving the
    widget uploading while further methods are called.  The runs of
    [Async.startUpload] are the general ones: while a promise is
    awaited, methods of the widget are called and callbacks of earlier
    invocations report.  The two agree when nothing of the kind happens
    ([startUpload_undisturbed]). *)

From Stdlib Require Import String Ascii DecimalString.
From Stdlib Require Import ZArith QArith Bool Lia List.
Import ListNotations.

Local Close Scope Q_scope.
Local Open Scope Z_scope.

(** ** The JavaScript built-ins the controller relies on *)

Module Js.

(** The decimal digits of an integer.  A template literal renders an
    integer-valued number this way as long as it is a safe integer (of
    magnitude below 2^53); a larger number is printed with the shortest
    digits that identify it and, from 10^21 on, in exponent notation,
    so that this is the string JavaScript builds for safe integers
    only. *)
Definition numberToString (n : Z) : string :=
  NilZero.string_of_int (Z.to_int n).

(** [(num / den).toFixed(1)] for a positive power-of-two [den] and a
    quotient of magnitude below 10^21: the quotient is exact in double
    precision, [toFixed] picks the integer [n] with [n / 10] nearest to
    it (the larger one on a tie), prints every digit of it and a
    leading minus sign when the quotient is negative.  From 10^21 on
    [toFixed] gives the exponent notation of the number instead, so
    that this is the string JavaScript builds below 10^21 only. *)
Definition toFixed1 (num den : Z) : string :=
  let n := (20 * Z.abs num + den) / (2 * den) in
  let sign := if num <? 0 then "-"%string else ""%string in
  (sign ++ numberToString (n / 10) ++ "." ++ numberToString (n mod 10))%string.

(** [Array.prototype.includes] on an array of strings. *)
Definition includes (l : list string) (x : string) : bool :=
  existsb (String.eqb x) l.

(** [Array.prototype.findIndex]: the first index whose element
    satisfies [p], and [-1] when there is none. *)
Fixpoint findIndex {A : Type} (p : A -> bool) (l : list A) : Z :=
  match l with
  | [] => -1
  | x :: l' =>
      if p x then 0
      else let r := findIndex p l' in if r <? 0 then -1 else r + 1
  end.

(** The index at which [splice(start, ...)] begins on an array of
    length [len]: a negative [start] counts from the end. *)
Definition actualStart (len start : Z) : nat :=
  Z.to_nat (if start <? 0 then Z.max (len + start) 0 else Z.min start len).

(** [arr.splice(start)]: what is left in [arr] (everything from the
    start index on is removed). *)
Definition splice {A : Type} (l : list A) (start : Z) : list A :=
  firstn (actualStart (Z.of_nat (length l)) start) l.

(** [arr.splice(start, 1)]: what is left in [arr]. *)
Definition splice1 {A : Type} (l : list A) (start : Z) : list A :=
  let s := actualStart (Z.of_nat (length l)) start in
  firstn s l ++ skipn (S s) l.

End Js.

(** ** Data model *)

(** A raw file handle: the three properties of a [File] the widget reads. *)
Record File : Type := mkFile {
  name : string;
  type : string;
  size : Z
}.

(** The value of [Date.now() + Math.random()]; only compared with [===]. *)
Definition Id : Type := Z.

(** A tracked entry ([fileObj]); its [preview] field is always [null]. *)
Record FileObj : Type := mkFileObj {
  file : File;
  id : Id;
  uploaded : bool;
  progress : Q
}.

(** A value that is thrown, or that a promise is rejected with, as far
    as the controller looks at it: the catch block of [startUpload]
    evaluates the template literal [`Upload failed: ${error.message}`].
    [Legible m] is a value on which this works, [m] being the rendering
    of its [message] property (the message of an [Error]; "undefined"
    for a string, a number or an object without one); [Illegible] is a
    value on which it throws a TypeError: null or undefined (as after
    [reject()] or [throw undefined]), or a value whose [message] is a
    symbol.  Reading and rendering the property runs no code of the
    embedding application (no accessor, no [toString] of its own). *)
Inductive Thrown : Type :=
| Legible (message : string)
| Illegible.

(** How the promise returned by [options.onUpload] ends (a function
    that throws instead of returning a promise counts as rejecting). *)
Inductive Settlement : Type :=
| Resolved
| Rejected (reason : Thrown)    (* rejected with [reason] *)
| Pending.                      (* never settles *)

(** One invocation of [options.onUpload]: the values it passes to the
    progress callback until its promise settles, in order, and how the
    promise settles. *)
Record Behaviour : Type := mkBehaviour {
  reports : list Q;
  settles : Settlement
}.

(** The upload function: its behaviour at its k-th invocation overall. *)
Definition UploadFn : Type := nat -> File -> Behaviour.

(** [this.options].  A hook other than [onUpload] is [true] when a
    handler is configured and [false] when it is [null]. *)
Record Options : Type := mkOptions {
  maxFiles : Z;
  maxFileSize : Z;
  acceptedTypes : list string;
  onFilesAdded : bool;
  onFileRemoved : bool;
  onUpload : option UploadFn;
  onUploadProgress : bool;
  onUploadComplete : bool;
  onError : bool
}.

(** The calls the widget makes to the outside. *)
Inductive Event : Type :=
| FilesAdded (batch : list File)                (* options.onFilesAdded(validFiles) *)
| FileRemoved (f : File)                        (* options.onFileRemoved(file.file) *)
| Upload (f : File)                             (* options.onUpload(fileObj.file, progressCallback) *)
| UploadProgress (f : File) (percent : Q)       (* options.onUploadProgress(fileObj.file, percent) *)
| UploadComplete (batch : list File)            (* options.onUploadComplete(files) *)
| Error (message : string)                      (* options.onError(message) *)
| ConsoleError (message : string).              (* console.error('ImageUploader:', message) *)

(** The instance fields, and how often the environment has been asked
    for an identifier and the upload function has been invoked. *)
Record World : Type := mkWorld {
  files : list FileObj;
  uploading : bool;
  ticks : nat;
  calls : nat
}.

(** The state right after the constructor. *)
Definition initial : World :=
  {| files := []; uploading := false; ticks := 0; calls := 0 |}.

(** ** The monad *)

Inductive Completion (A : Type) : Type :=
| Normal (a : A)
| Throw (error : Thrown)     (* an exception: [error] is the thrown value *)
| Suspended                  (* stopped at an [await] that never resumes *)
| OutOfFuel.                 (* the loop bound of the model was too small *)

Arguments Normal {A} a.
Arguments Throw {A} error.
Arguments Suspended {A}.
Arguments OutOfFuel {A}.

Record Run (A : Type) : Type := mkRun {
  completion : Completion A;
  final : World;
  trace : list Event
}.

Arguments mkRun {A} _ _ _.
Arguments completion {A} _.
Arguments final {A} _.
Arguments trace {A} _.

Definition M (A : Type) : Type := World -> Run A.

Definition ret {A : Type} (a : A) : M A :=
  fun w => mkRun (Normal a) w [].

Definition bind {A B : Type} (m : M A) (k : A -> M B) : M B :=
  fun w =>
    match m w with
    | mkRun (Normal a) w1 t1 =>
        match k a w1 with
        | mkRun c w2 t2 => mkRun c w2 (t1 ++ t2)
        end
    | mkRun (Throw e) w1 t1 => mkRun (Throw e) w1 t1
    | mkRun Suspended w1 t1 => mkRun Suspended w1 t1
    | mkRun OutOfFuel w1 t1 => mkRun OutOfFuel w1 t1
    end.

Notation "x <- m ;; k" := (bind m (fun x => k))
  (at level 61, m at next level, right associativity).
Notation "m ;; k" := (bind m (fun _ => k))
  (at level 61, right associativity).

Definition get : M World := fun w => mkRun (Normal w) w [].
Definition modify (f : World -> World) : M unit :=
  fun w => mkRun (Normal tt) (f w) [].
Definition emit (e : Event) : M unit := fun w => mkRun (Normal tt) w [e].
(** [throw new Error(message)], or an error of the engine. *)
Definition throw {A : Type} (message : string) : M A :=
  fun w => mkRun (Throw (Legible message)) w [].
(** [throw error], for a value that was caught. *)
Definition rethrow {A : Type} (error : Thrown) : M A :=
  fun w => mkRun (Throw error) w [].
Definition suspend {A : Type} : M A := fun w => mkRun Suspended w [].
Definition outOfFuel {A : Type} : M A := fun w => mkRun OutOfFuel w [].

Definition when (b : bool) (m : M unit) : M unit := if b then m else ret tt.

(** [try { body } catch (error) { handler(error) }] *)
Definition tryCatch {A : Type} (body : M A) (handler : Thrown -> M A) : M A :=
  fun w =>
    match body w with
    | mkRun (Throw e) w1 t1 =>
        match handler e w1 with
        | mkRun c w2 t2 => mkRun c w2 (t1 ++ t2)
        end
    | r => r
    end.

(** [try { body } finally { finalizer }]: the finalizer runs when the
    body returns or throws, and the body's completion is kept. *)
Definition tryFinally {A : Type} (body : M A) (finalizer : M unit) : M A :=
  fun w =>
    match body w with
    | mkRun Suspended w1 t1 => mkRun Suspended w1 t1
    | mkRun OutOfFuel w1 t1 => mkRun OutOfFuel w1 t1
    | mkRun c w1 t1 =>
        match finalizer w1 with
        | mkRun (Normal _) w2 t2 => mkRun c w2 (t1 ++ t2)
        | mkRun (Throw e) w2 t2 => mkRun (Throw e) w2 (t1 ++ t2)
        | mkRun Suspended w2 t2 => mkRun Suspended w2 (t1 ++ t2)
        | mkRun OutOfFuel w2 t2 => mkRun OutOfFuel w2 (t1 ++ t2)
        end
    end.

(** [newFiles.filter(p)]: the callback runs once per element, in order. *)
Fixpoint filterM {A : Type} (p : A -> M bool) (l : list A) : M (list A) :=
  match l with
  | [] => ret []
  | x :: l' =>
      b <- p x ;;
      rest <- filterM p l' ;;
      ret (if b then x :: rest else rest)
  end.

(** [arr.forEach(f)] *)
Fixpoint forEach {A : Type} (f : A -> M unit) (l : list A) : M unit :=
  match l with
  | [] => ret tt
  | x :: l' => f x ;; forEach f l'
  end.

(** ** Field updates *)

Definition setFiles (l : list FileObj) (w : World) : World :=
  {| files := l; uploading := uploading w; ticks := ticks w; calls := calls w |}.

Definition setUploading (b : bool) (w : World) : World :=
  {| files := files w; uploading := b; ticks := ticks w; calls := calls w |}.

Definition setProgress (percent : Q) (o : FileObj) : FileObj :=
  {| file := file o; id := id o; uploaded := uploaded o; progress := percent |}.

Definition setUploaded (o : FileObj) : FileObj :=
  {| file := file o; id := id o; uploaded := true; progress := progress o |}.

(** Assignment to a field of the entry stored at index [i]. *)
Fixpoint updateAt {A : Type} (i : nat) (f : A -> A) (l : list A) : list A :=
  match l, i with
  | [], _ => []
  | x :: l', O => f x :: l'
  | x :: l', S i' => x :: updateAt i' f l'
  end.

Definition mutate (i : nat) (f : FileObj -> FileObj) : M unit :=
  modify (fun w => setFiles (updateAt i f (files w)) w).

(** ** The controller *)

Section Controller.

Variable options : Options.

(** [Date.now() + Math.random()] at its k-th evaluation. *)
Variable clock : nat -> Id.

Definition showError (message : string) : M unit :=
  if onError options then emit (Error message)
  else emit (ConsoleError message).

Definition invalidTypeMessage (f : File) : string :=
  (name f ++ ": Invalid file type")%string.

Definition tooLargeMessage (f : File) : string :=
  (name f ++ ": File too large (max "
     ++ Js.toFixed1 (maxFileSize options) (1024 * 1024) ++ "MB)")%string.

Definition validateFile (f : File) : M bool :=
  if negb (Js.includes (acceptedTypes options) (type f)) then
    showError (invalidTypeMessage f) ;; ret false
  else if size f >? maxFileSize options then
    showError (tooLargeMessage f) ;; ret false
  else ret true.

Definition maxFilesMessage : string :=
  ("Maximum " ++ Js.numberToString (maxFiles options) ++ " files allowed")%string.

Definition freshId : M Id :=
  w <- get ;;
  modify (fun w => {| files := files w; uploading := uploading w;
                      ticks := S (ticks w); calls := calls w |}) ;;
  ret (clock (ticks w)).

Definition push (o : FileObj) : M unit :=
  modify (fun w => setFiles (files w ++ [o]) w).

Definition addFiles (newFiles : list File) : M unit :=
  validFiles <- filterM validateFile newFiles ;;
  w <- get ;;
  validFiles <-
    (if Z.of_nat (length (files w)) + Z.of_nat (length validFiles)
          >? maxFiles options
     then
       showError maxFilesMessage ;;
       ret (Js.splice validFiles
              (maxFiles options - Z.of_nat (length (files w))))
     else ret validFiles) ;;
  forEach
    (fun f =>
       i <- freshId ;;
       push {| file := f; id := i; uploaded := false; progress := 0%Q |})
       (* this.createPreview(fileObj) : DOM only *)
    validFiles ;;
  (* this.updateUI() : DOM only *)
  when (onFilesAdded options && (0 <? Z.of_nat (length validFiles)))
    (emit (FilesAdded validFiles)).

Definition removeFile (fileId : Id) : M unit :=
  w <- get ;;
  let index := Js.findIndex (fun f => id f =? fileId) (files w) in
  if index >? -1 then
    let entry := nth_error (files w) (Z.to_nat index) in
    modify (setFiles (Js.splice1 (files w) index)) ;;
    (* this.updateUI() : DOM only *)
    when (onFileRemoved options)
      match entry with
      | Some fileObj => emit (FileRemoved (file fileObj))
      | None => throw "TypeError"      (* file is undefined *)
      end
  else ret tt.

(** The closure [progressCallback] of [uploadFile]; [fileObj] is the
    entry at index [i] of [this.files]. *)
Definition progressCallback (i : nat) (fileObj : FileObj) (percent : Q)
  : M unit :=
  mutate i (setProgress percent) ;;
  when (onUploadProgress options)
    (emit (UploadProgress (file fileObj) percent)).

(** [await this.options.onUpload(fileObj.file, progressCallback)], when
    nothing else happens until the promise settles ([Async.awaitUpload]
    is the general case). *)
Definition awaitUpload (fn : UploadFn) (f : File) (callback : Q -> M unit)
  : M unit :=
  w <- get ;;
  modify (fun w => {| files := files w; uploading := uploading w;
                      ticks := ticks w; calls := S (calls w) |}) ;;
  emit (Upload f) ;;
  forEach callback (reports (fn (calls w) f)) ;;
  match settles (fn (calls w) f) with
  | Resolved => ret tt
  | Rejected reason => rethrow reason
  | Pending => suspend
  end.

Definition uploadFile (fn : UploadFn) (i : nat) (fileObj : FileObj)
  : M unit :=
  tryCatch
    (awaitUpload fn (file fileObj) (progressCallback i fileObj) ;;
     mutate i setUploaded)
    (fun error => rethrow error).

(** The [for] loop of [startUpload], from index [i] on. *)
Fixpoint uploadLoop (fn : UploadFn) (fuel i : nat) : M unit :=
  match fuel with
  | O => outOfFuel
  | S fuel' =>
      w <- get ;;
      match nth_error (files w) i with
      | None => ret tt                       (* i < this.files.length fails *)
      | Some fileObj =>
          (if uploaded fileObj then ret tt else uploadFile fn i fileObj) ;;
          uploadLoop fn fuel' (S i)
      end
  end.

Definition startUpload : M unit :=
  w <- get ;;
  match onUpload options with
  | None => ret tt
  | Some fn =>
      if uploading w then ret tt
      else
        modify (setUploading true) ;;
        tryFinally
          (tryCatch
             (uploadLoop fn (S (length (files w))) 0 ;;
              when (onUploadComplete options)
                (w' <- get ;; emit (UploadComplete (map file (files w')))))
             (fun error =>
                match error with
                | Legible message => showError ("Upload failed: " ++ message)
                | Illegible => throw "TypeError"   (* error.message throws *)
                end))
          (modify (setUploading false))
  end.

Definition getFiles (w : World) : list File := map file (files w).

Definition getUploadedFiles (w : World) : list File :=
  map file (filter uploaded (files w)).

Definition clear : M unit :=
  modify (fun w => setFiles [] w).

End Controller.

(** ** Observations on traces and on the tracked list *)

(** The event [showError] produces. *)
Definition report (options : Options) (message : string) : Event :=
  if onError options then Error message else ConsoleError message.

(** A file passes both checks of [validateFile]. *)
Definition accepts (options : Options) (f : File) : bool :=
  Js.includes (acceptedTypes options) (type f)
  && negb (size f >? maxFileSize options).

(** What [validateFile] reports about one file. *)
Definition rejection (options : Options) (f : File) : list Event :=
  if negb (Js.includes (acceptedTypes options) (type f)) then
    [report options (invalidTypeMessage f)]
  else if size f >? maxFileSize options then
    [report options (tooLargeMessage options f)]
  else [].

(** The entries [addFiles] builds for the accepted files, the first
    identifier being the k-th one of the clock. *)
Fixpoint wrap (clock : nat -> Id) (k : nat) (l : list File) : list FileObj :=
  match l with
  | [] => []
  | f :: l' =>
      {| file := f; id := clock k; uploaded := false; progress := 0%Q |}
        :: wrap clock (S k) l'
  end.

(** The entries not yet marked uploaded, in tracked order. *)
Definition pending (l : list FileObj) : list FileObj :=
  filter (fun o => negb (uploaded o)) l.

(** The files the upload function was invoked on, in order. *)
Fixpoint uploads (tr : list Event) : list File :=
  match tr with
  | [] => []
  | Upload f :: tr' => f :: uploads tr'
  | _ :: tr' => uploads tr'
  end.

(** The batches the files-added hook was invoked with, in order. *)
Fixpoint filesAdded (tr : list Event) : list (list File) :=
  match tr with
  | [] => []
  | FilesAdded b :: tr' => b :: filesAdded tr'
  | _ :: tr' => filesAdded tr'
  end.

(** The files the file-removed hook was invoked with, in order. *)
Fixpoint filesRemoved (tr : list Event) : list File :=
  match tr with
  | [] => []
  | FileRemoved f :: tr' => f :: filesRemoved tr'
  | _ :: tr' => filesRemoved tr'
  end.

(** The batches the upload-complete hook was invoked with, in order. *)
Fixpoint completions (tr : list Event) : list (list File) :=
  match tr with
  | [] => []
  | UploadComplete b :: tr' => b :: completions tr'
  | _ :: tr' => completions tr'
  end.

(** The messages passed to [showError], in order. *)
Fixpoint errors (tr : list Event) : list string :=
  match tr with
  | [] => []
  | Error m :: tr' => m :: errors tr'
  | ConsoleError m :: tr' => m :: errors tr'
  | _ :: tr' => errors tr'
  end.

(** The test of [addFiles] on the number of tracked and valid files. *)
Definition overCapacity (options : Options) (w : World) (valid : list File)
  : bool :=
  Z.of_nat (length (files w)) + Z.of_nat (length valid) >? maxFiles options.

(** The files of a batch that [addFiles] accepts in state [w]. *)
Definition admitted (options : Options) (w : World) (batch : list File)
  : list File :=
  let valid := filter (accepts options) batch in
  if overCapacity options w valid then
    Js.splice valid (maxFiles options - Z.of_nat (length (files w)))
  else valid.

(** An entry after the progress callback has been called with the
    values [ps], in order. *)
Definition afterReports (ps : list Q) (o : FileObj) : FileObj :=
  fold_left (fun o p => setProgress p o) ps o.

(** The calls of the upload-progress hook these callbacks make. *)
Definition progressEvents (options : Options) (f : File) (ps : list Q)
  : list Event :=
  if onUploadProgress options then map (UploadProgress f) ps else [].

(** The loop of [startUpload] read as a recursion over the entries that
    are still ahead of the loop index: how the loop ends, what these
    entries have become, the number of invocations of the upload
    function so far, and the events. *)
Record Rest : Type := mkRest {
  outcome : Completion unit;
  entries : list FileObj;
  invoked : nat;
  emitted : list Event
}.

Fixpoint uploadRest (options : Options) (fn : UploadFn) (k : nat)
  (rest : list FileObj) : Rest :=
  match rest with
  | [] => mkRest (Normal tt) [] k []
  | o :: rest' =>
      if uploaded o then
        let r := uploadRest options fn k rest' in
        mkRest (outcome r) (o :: entries r) (invoked r) (emitted r)
      else
        let b := fn k (file o) in
        let o1 := afterReports (reports b) o in
        let t1 := Upload (file o) :: progressEvents options (file o) (reports b) in
        match settles b with
        | Resolved =>
            let r := uploadRest options fn (S k) rest' in
            mkRest (outcome r) (setUploaded o1 :: entries r) (invoked r)
              (t1 ++ emitted r)
        | Rejected e => mkRest (Throw e) (o1 :: rest') (S k) t1
        | Pending => mkRest Suspended (o1 :: rest') (S k) t1
        end
  end.

(** The state [startUpload] leaves, given what the loop did. *)
Definition settled (w : World) (r : Rest) (busy : bool) : World :=
  {| files := entries r; uploading := busy; ticks := ticks w;
     calls := invoked r |}.

(** The upload function resolves on every pending entry of [l] when it
    is invoked on them in order, its invocations being numbered from
    [k] on. *)
Definition resolvesAll (fn : UploadFn) (k : nat) (l : list FileObj) : Prop :=
  forall n o,
    nth_error (pending l) n = Some o ->
    settles (fn (k + n)%nat (file o)) = Resolved.

(** A value between 0 and 100. *)
Definition percentage (p : Q) : Prop := (0 <= p <= 100)%Q.

(** ** Sessions: the public methods called one after the other *)

Inductive Call : Type :=
| AddFiles (newFiles : list File)
| RemoveFile (fileId : Id)
| StartUpload
| Clear.

Definition call (options : Options) (clock : nat -> Id) (c : Call) : M unit :=
  match c with
  | AddFiles newFiles => addFiles options clock newFiles
  | RemoveFile fileId => removeFile options fileId
  | StartUpload => startUpload options
  | Clear => clear
  end.

(** The state after a sequence of calls. *)
Fixpoint session (options : Options) (clock : nat -> Id) (cs : list Call)
  (w : World) : World :=
  match cs with
  | [] => w
  | c :: cs' => session options clock cs' (final (call options clock c w))
  end.

(** ** Scenarios *)

Definition imageTypes : list string :=
  ["image/jpeg"; "image/jpg"; "image/png"; "image/gif"; "image/webp"]%string.

(** The default options, with every hook configured. *)
Definition defaults (fn : option UploadFn) : Options :=
  {| maxFiles := 10; maxFileSize := 10 * 1024 * 1024;
     acceptedTypes := imageTypes;
     onFilesAdded := true; onFileRemoved := true; onUpload := fn;
     onUploadProgress := true; onUploadComplete := true; onError := true |}.

Definition withMaxFiles (n : Z) (o : Options) : Options :=
  {| maxFiles := n; maxFileSize := maxFileSize o;
     acceptedTypes := acceptedTypes o;
     onFilesAdded := onFilesAdded o; onFileRemoved := onFileRemoved o;
     onUpload := onUpload o; onUploadProgress := onUploadProgress o;
     onUploadComplete := onUploadComplete o; onError := onError o |}.

Definition withMaxFileSize (n : Z) (o : Options) : Options :=
  {| maxFiles := maxFiles o; maxFileSize := n;
     acceptedTypes := acceptedTypes o;
     onFilesAdded := onFilesAdded o; onFileRemoved := onFileRemoved o;
     onUpload := onUpload o; onUploadProgress := onUploadProgress o;
     onUploadComplete := onUploadComplete o; onError := onError o |}.

Definition jpeg (n : string) (sz : Z) : File :=
  {| name := n; type := "image/jpeg"; size := sz |}.

Definition megabyte : Z := 1024 * 1024.

(** A text file of 20MB: wrong type and too large at once. *)
Definition notes : File :=
  {| name := "notes.txt"; type := "text/plain"; size := 20 * megabyte |}.

(** A JPEG of 20MB. *)
Definition poster : File := jpeg "poster.jpg" (20 * megabyte).

Definition fileA : File := jpeg "a.jpg" megabyte.
Definition fileB : File := jpeg "b.jpg" megabyte.
Definition fileC : File := jpeg "c.jpg" megabyte.

(** A clock whose k-th identifier is [k]. *)
Definition counter : nat -> Id := Z.of_nat.

(** An upload function that never settles. *)
Definition stalls : UploadFn :=
  fun _ _ => {| reports := []; settles := Pending |}.

(** An upload function that rejects [b.jpg] on its first two invocations
    and resolves otherwise, reporting 50 and 100 percent. *)
Definition flaky : UploadFn :=
  fun k f =>
    if (name f =? "b.jpg")%string && (k <? 2)%nat then
      {| reports := [50%Q]; settles := Rejected (Legible "network") |}
    else {| reports := [50%Q; 100%Q]; settles := Resolved |}.


(** An upload function that always resolves. *)
Definition steady : UploadFn :=
  fun _ _ => {| reports := [50%Q; 100%Q]; settles := Resolved |}.

(** An upload function that reports 150 percent. *)
Definition overshoots : UploadFn :=
  fun _ _ => {| reports := [150%Q]; settles := Resolved |}.

(** The events of a sequence of calls, in order. *)
Fixpoint sessionTrace (options : Options) (clock : nat -> Id)
  (cs : list Call) (w : World) : list Event :=
  match cs with
  | [] => []
  | c :: cs' =>
      trace (call options clock c w)
        ++ sessionTrace options clock cs' (final (call options clock c w))
  end.

(** The identifiers of the tracked entries are distinct values of the
    clock at ticks that have passed. *)
Definition issued (clock : nat -> Id) (w : World) : Prop :=
  NoDup (map id (files w))
  /\ forall i, In i (map id (files w)) ->
               exists k, (k < ticks w)%nat /\ i = clock k.

(** Every call of the upload-progress hook in a trace is for the file
    of the latest invocation of the upload function before it
    ([current] when there is none in the trace). *)
Fixpoint attributed (current : option File) (tr : list Event) : Prop :=
  match tr with
  | [] => True
  | Upload f :: tr' => attributed (Some f) tr'
  | UploadProgress f _ :: tr' => current = Some f /\ attributed current tr'
  | _ :: tr' => attributed current tr'
  end.

(** ** Runs of [startUpload] with other calls in between

    [startUpload] gives up control at every [await]: until the promise
    of the upload function settles, handlers of the page and code of the
    embedding application run, and they can call methods of the widget
    (a click on a remove button, a drop, [clear()]); the upload function
    and the upload-progress hook can call them as well.  A progress
    callback that was handed to an earlier invocation can still be
    called, too.  The definitions of [Async] are those of the controller
    with these steps put in where they can happen; the entry an
    invocation works on is followed through the changes of the tracked
    list, because [uploadFile] and its callback hold the entry itself,
    not its index.  Callbacks that were handed out in an earlier run
    are left out. *)

(** What can happen while a promise of the upload function is awaited,
    besides the calls of the progress callback of that invocation. *)
Inductive Interruption : Type :=
| Method (c : Call)
    (* a method of the widget is called *)
| LateReport (ago : nat) (percent : Q).
    (* the callback of an invocation of this run that has settled is
       called: with [ago = 0] the one before the current invocation *)

(** [meanwhile k j]: what happens, in order, during the k-th invocation
    of the upload function overall after its j-th call of the progress
    callback: before the next call or, after the last one, before the
    promise settles.  What runs between the settlement and the moment
    [startUpload] resumes counts as running before the settlement: the
    methods of [Call] do not depend on the difference. *)
Definition Meanwhile : Type := nat -> nat -> list Interruption.

(** The entry ([fileObj]) that [uploadFile] and its [progressCallback]
    hold: its file, and the index at which it sits in [this.files] now
    ([None] when it is no longer in that array). *)
Record Closure : Type := mkClosure {
  target : File;
  place : option nat
}.

(** The index of the entry that was at index [i] of [this.files] in
    state [w], after the call [c]: [splice(index, 1)] moves the entries
    behind [index] down by one, [push] appends, [clear] installs a new
    array, and [startUpload] moves nothing. *)
Definition relocate (c : Call) (w : World) (place : option nat) : option nat :=
  match c, place with
  | RemoveFile fileId, Some i =>
      let index := Js.findIndex (fun f => id f =? fileId) (files w) in
      if index >? -1 then
        match (Z.to_nat index ?= i)%nat with
        | Lt => Some (pred i)
        | Eq => None
        | Gt => Some i
        end
      else Some i
  | Clear, Some _ => None
  | _, _ => place
  end.

Definition moved (c : Call) (w : World) (held : Closure) : Closure :=
  {| target := target held; place := relocate c w (place held) |}.

Module Async.

Section Run.

Variable options : Options.
Variable clock : nat -> Id.
Variable meanwhile : Meanwhile.

(** The closure [progressCallback] of [uploadFile]. *)
Definition progressCallback (held : Closure) (percent : Q) : M unit :=
  match place held with
  | Some i => mutate i (setProgress percent)
  | None => ret tt                 (* fileObj is not in this.files *)
  end ;;
  when (onUploadProgress options)
    (emit (UploadProgress (target held) percent)).

(** A method called by a handler of the page or by the embedding
    application: how the call ends is its caller's business. *)
Definition invoke (c : Call) : M unit :=
  fun w =>
    match call options clock c w with
    | mkRun _ w1 t1 => mkRun (Normal tt) w1 t1
    end.

(** One interruption; [held] is the entry of the current invocation and
    [earlier] those of the invocations before it, the latest first. *)
Definition interrupt (x : Interruption) (held : Closure)
  (earlier : list Closure) : M (Closure * list Closure) :=
  match x with
  | Method c =>
      w <- get ;;
      invoke c ;;
      ret (moved c w held, map (moved c w) earlier)
  | LateReport ago percent =>
      match nth_error earlier ago with
      | Some late => progressCallback late percent
      | None => ret tt               (* no such callback was handed out *)
      end ;;
      ret (held, earlier)
  end.

Fixpoint interrupts (xs : list Interruption) (held : Closure)
  (earlier : list Closure) : M (Closure * list Closure) :=
  match xs with
  | [] => ret (held, earlier)
  | x :: xs' =>
      cs <- interrupt x held earlier ;;
      interrupts xs' (fst cs) (snd cs)
  end.

(** The k-th invocation of the upload function from its j-th call of the
    progress callback on, the values [ps] being still to come. *)
Fixpoint reporting (k j : nat) (ps : list Q) (held : Closure)
  (earlier : list Closure) : M (Closure * list Closure) :=
  cs <- interrupts (meanwhile k j) held earlier ;;
  match ps with
  | [] => ret cs
  | p :: ps' =>
      progressCallback (fst cs) p ;;
      reporting k (S j) ps' (fst cs) (snd cs)
  end.

(** [await this.options.onUpload(fileObj.file, progressCallback)] *)
Definition awaitUpload (fn : UploadFn) (held : Closure)
  (earlier : list Closure) : M (Closure * list Closure) :=
  w <- get ;;
  modify (fun w => {| files := files w; uploading := uploading w;
                      ticks := ticks w; calls := S (calls w) |}) ;;
  emit (Upload (target held)) ;;
  cs <- reporting (calls w) 0 (reports (fn (calls w) (target held)))
          held earlier ;;
  match settles (fn (calls w) (target held)) with
  | Resolved => ret cs
  | Rejected reason => rethrow reason
  | Pending => suspend
  end.

(** [uploadFile(fileObj)], [fileObj] being the entry at index [i] when
    the call is made; the result is the list of the entries that
    invocations of this run have worked on, the latest first. *)
Definition uploadFile (fn : UploadFn) (i : nat) (fileObj : FileObj)
  (earlier : list Closure) : M (list Closure) :=
  tryCatch
    (cs <- awaitUpload fn {| target := file fileObj; place := Some i |}
             earlier ;;
     match place (fst cs) with
     | Some i' => mutate i' setUploaded
     | None => ret tt               (* fileObj is not in this.files *)
     end ;;
     ret (fst cs :: snd cs))
    (fun error => rethrow error).

(** The [for] loop of [startUpload], from index [i] on: the condition
    and [this.files[i]] are evaluated on the array as it is then.
    [fuel] bounds the number of iterations. *)
Fixpoint uploadLoop (fn : UploadFn) (fuel i : nat) (earlier : list Closure)
  : M unit :=
  match fuel with
  | O => outOfFuel
  | S fuel' =>
      w <- get ;;
      match nth_error (files w) i with
      | None => ret tt                       (* i < this.files.length fails *)
      | Some fileObj =>
          earlier' <-
            (if uploaded fileObj then ret earlier
             else uploadFile fn i fileObj earlier) ;;
          uploadLoop fn fuel' (S i) earlier'
      end
  end.

Definition startUpload (fuel : nat) : M unit :=
  w <- get ;;
  match onUpload options with
  | None => ret tt
  | Some fn =>
      if uploading w then ret tt
      else
        modify (setUploading true) ;;
        tryFinally
          (tryCatch
             (uploadLoop fn fuel 0 [] ;;
              when (onUploadComplete options)
                (w' <- get ;; emit (UploadComplete (map file (files w')))))
             (fun error =>
                match error with
                | Legible message => showError options ("Upload failed: " ++ message)
                | Illegible => throw "TypeError"   (* error.message throws *)
                end))
          (modify (setUploading false))
  end.

End Run.

End Async.

(** Nothing happens while [startUpload] waits, besides the calls of the
    progress callback of the invocation it waits for. *)
Definition undisturbed (meanwhile : Meanwhile) : Prop :=
  forall k j, meanwhile k j = [].

(** No progress callback is called after the promise of its invocation
    has settled. *)
Definition punctual (meanwhile : Meanwhile) : Prop :=
  forall k j x, In x (meanwhile k j) -> exists c, x = Method c.

(** A trace without an invocation of the upload function and without a
    call of the upload-progress hook. *)
Fixpoint silent (tr : list Event) : bool :=
  match tr with
  | [] => true
  | Upload _ :: _ => false
  | UploadProgress _ _ :: _ => false
  | _ :: tr' => silent tr'
  end.

(** A run that leaves the widget uploading and in whose events every
    call of the upload-progress hook is for the file of the latest
    invocation of the upload function before it. *)
Definition orderly {A : Type} (r : Run A) : Prop :=
  uploading (final r) = true
  /\ forall current tail,
       (forall c, attributed c tail) -> attributed current (trace r ++ tail).

(** Nothing in between. *)
Definition nothing : Meanwhile := fun _ _ => [].

(** The entry with identifier 0 is removed while the first invocation
    of the upload function is awaited. *)
Definition removesFirst : Meanwhile :=
  fun k j =>
    match k, j with
    | O, O => [Method (RemoveFile 0)]
    | _, _ => []
    end.

(** The first invocation reports once more while the second one is
    awaited, as an upload function that throttles its reports does. *)
Definition throttled : Meanwhile :=
  fun k j =>
    match k, j with
    | 1%nat, O => [LateReport 0 100%Q]
    | _, _ => []
    end.

(** ** The controls on the page

    The controller with its writes to the drop zone, the controls box,
    the upload button and the progress box (the elements that
    [createHTML] creates once).  The previews, which a [FileReader]
    fills in later, are left out; so are the value of the file input and
    the default action and the propagation of the events. *)

Module Dom.

Record Controls : Type := mkControls {
  dragOver : bool;              (* the drop zone has the class 'drag-over' *)
  controlsDisplay : string;     (* controls.style.display *)
  uploadDisabled : bool;        (* uploadBtn.disabled *)
  progressDisplay : string      (* progressContainer.style.display *)
}.

Record Page : Type := mkPage {
  logic : World;
  controls : Controls
}.

(** The page as [createHTML] and the constructor leave it. *)
Definition initialPage : Page :=
  {| logic := initial;
     controls := {| dragOver := false; controlsDisplay := "none";
                    uploadDisabled := false; progressDisplay := "none" |} |}.

Record PageRun (A : Type) : Type := mkPageRun {
  pageCompletion : Completion A;
  pageFinal : Page;
  pageTrace : list Event
}.

Arguments mkPageRun {A} _ _ _.
Arguments pageCompletion {A} _.
Arguments pageFinal {A} _.
Arguments pageTrace {A} _.

Definition P (A : Type) : Type := Page -> PageRun A.

Definition retP {A : Type} (a : A) : P A :=
  fun p => mkPageRun (Normal a) p [].

Definition bindP {A B : Type} (m : P A) (k : A -> P B) : P B :=
  fun p =>
    match m p with
    | mkPageRun (Normal a) p1 t1 =>
        match k a p1 with
        | mkPageRun c p2 t2 => mkPageRun c p2 (t1 ++ t2)
        end
    | mkPageRun (Throw e) p1 t1 => mkPageRun (Throw e) p1 t1
    | mkPageRun Suspended p1 t1 => mkPageRun Suspended p1 t1
    | mkPageRun OutOfFuel p1 t1 => mkPageRun OutOfFuel p1 t1
    end.

Notation "x <~ m ;; k" := (bindP m (fun x => k))
  (at level 61, m at next level, right associativity).

(** A step of the controller that does not touch the page. *)
Definition lift {A : Type} (m : M A) : P A :=
  fun p =>
    match m (logic p) with
    | mkRun c w t => mkPageRun c (mkPage w (controls p)) t
    end.

(** A write to the page. *)
Definition write (f : Controls -> Controls) : P unit :=
  fun p => mkPageRun (Normal tt) (mkPage (logic p) (f (controls p))) [].

Definition tryCatchP {A : Type} (body : P A) (handler : Thrown -> P A)
  : P A :=
  fun p =>
    match body p with
    | mkPageRun (Throw e) p1 t1 =>
        match handler e p1 with
        | mkPageRun c p2 t2 => mkPageRun c p2 (t1 ++ t2)
        end
    | r => r
    end.

Definition tryFinallyP {A : Type} (body : P A) (finalizer : P unit) : P A :=
  fun p =>
    match body p with
    | mkPageRun Suspended p1 t1 => mkPageRun Suspended p1 t1
    | mkPageRun OutOfFuel p1 t1 => mkPageRun OutOfFuel p1 t1
    | mkPageRun c p1 t1 =>
        match finalizer p1 with
        | mkPageRun (Normal _) p2 t2 => mkPageRun c p2 (t1 ++ t2)
        | mkPageRun (Throw e) p2 t2 => mkPageRun (Throw e) p2 (t1 ++ t2)
        | mkPageRun Suspended p2 t2 => mkPageRun Suspended p2 (t1 ++ t2)
        | mkPageRun OutOfFuel p2 t2 => mkPageRun OutOfFuel p2 (t1 ++ t2)
        end
    end.

Definition setDragOver (b : bool) (c : Controls) : Controls :=
  {| dragOver := b; controlsDisplay := controlsDisplay c;
     uploadDisabled := uploadDisabled c;
     progressDisplay := progressDisplay c |}.

Definition setControlsDisplay (v : string) (c : Controls) : Controls :=
  {| dragOver := dragOver c; controlsDisplay := v;
     uploadDisabled := uploadDisabled c;
     progressDisplay := progressDisplay c |}.

Definition setUploadDisabled (b : bool) (c : Controls) : Controls :=
  {| dragOver := dragOver c; controlsDisplay := controlsDisplay c;
     uploadDisabled := b; progressDisplay := progressDisplay c |}.

Definition setProgressDisplay (v : string) (c : Controls) : Controls :=
  {| dragOver := dragOver c; controlsDisplay := controlsDisplay c;
     uploadDisabled := uploadDisabled c; progressDisplay := v |}.

Section Document.

Variable options : Options.
Variable clock : nat -> Id.

Definition updateUI : P unit :=
  w <~ lift get ;;
  if 0 <? Z.of_nat (length (files w)) then
    _ <~ write (setControlsDisplay "block") ;;
    write (setUploadDisabled (uploading w))
  else write (setControlsDisplay "none").

Definition addFiles (newFiles : list File) : P unit :=
  validFiles <~ lift (filterM (validateFile options) newFiles) ;;
  w <~ lift get ;;
  validFiles <~
    (if Z.of_nat (length (files w)) + Z.of_nat (length validFiles)
          >? maxFiles options
     then
       _ <~ lift (showError options (maxFilesMessage options)) ;;
       retP (Js.splice validFiles
               (maxFiles options - Z.of_nat (length (files w))))
     else retP validFiles) ;;
  _ <~ lift (forEach
               (fun f =>
                  i <- freshId clock ;;
                  push {| file := f; id := i; uploaded := false;
                          progress := 0%Q |})
               validFiles) ;;
  _ <~ updateUI ;;
  lift (when (onFilesAdded options && (0 <? Z.of_nat (length validFiles)))
          (emit (FilesAdded validFiles))).

Definition handleDragOver : P unit := write (setDragOver true).

Definition handleDragLeave : P unit := write (setDragOver false).

Definition handleDrop (dropped : list File) : P unit :=
  _ <~ write (setDragOver false) ;;
  addFiles dropped.

Definition handleFileSelect (selected : list File) : P unit :=
  addFiles selected.

Definition removeFile (fileId : Id) : P unit :=
  w <~ lift get ;;
  let index := Js.findIndex (fun f => id f =? fileId) (files w) in
  if index >? -1 then
    let entry := nth_error (files w) (Z.to_nat index) in
    _ <~ lift (modify (setFiles (Js.splice1 (files w) index))) ;;
    _ <~ updateUI ;;
    lift (when (onFileRemoved options)
            match entry with
            | Some fileObj => emit (FileRemoved (file fileObj))
            | None => throw "TypeError"
            end)
  else retP tt.

Definition startUpload : P unit :=
  w <~ lift get ;;
  match onUpload options with
  | None => retP tt
  | Some fn =>
      if uploading w then retP tt
      else
        _ <~ lift (modify (setUploading true)) ;;
        _ <~ write (setUploadDisabled true) ;;
        _ <~ write (setProgressDisplay "block") ;;
        tryFinallyP
          (tryCatchP
             (_ <~ lift (uploadLoop options fn (S (length (files w))) 0) ;;
              lift (when (onUploadComplete options)
                      (w' <- get ;;
                       emit (UploadComplete (map file (files w'))))))
             (fun error =>
                match error with
                | Legible message =>
                    lift (showError options ("Upload failed: " ++ message))
                | Illegible => lift (throw "TypeError")
                end))
          (_ <~ lift (modify (setUploading false)) ;;
           _ <~ write (setUploadDisabled false) ;;
           write (setProgressDisplay "none"))
  end.

Definition clear : P unit :=
  _ <~ lift (modify (fun w => setFiles [] w)) ;;
  updateUI.

(** What the user and the embedding application do: the events that
    [attachEvents] and [createPreview] listen to, and a call of
    [clear()]. *)
Inductive Action : Type :=
| DragOver
| DragLeave
| Drop (dropped : list File)
| Select (selected : list File)          (* change of the file input *)
| ClickUpload
| ClickRemove (fileId : Id)              (* the remove button of a preview *)
| CallClear.

Definition handle (a : Action) : P unit :=
  match a with
  | DragOver => handleDragOver
  | DragLeave => handleDragLeave
  | Drop dropped => handleDrop dropped
  | Select selected => handleFileSelect selected
  | ClickUpload => startUpload
  | ClickRemove fileId => removeFile fileId
  | CallClear => clear
  end.

(** The page after a sequence of actions. *)
Fixpoint interact (actions : list Action) (p : Page) : Page :=
  match actions with
  | [] => p
  | a :: actions' => interact actions' (pageFinal (handle a p))
  end.

End Document.

(** The method of the controller an action ends in, if any. *)
Definition callOf (a : Action) : list Call :=
  match a with
  | DragOver | DragLeave => []
  | Drop dropped => [AddFiles dropped]
  | Select selected => [AddFiles selected]
  | ClickUpload => [StartUpload]
  | ClickRemove fileId => [RemoveFile fileId]
  | CallClear => [Clear]
  end.

(** What [updateUI] writes, given the state of the controller. *)
Definition refresh (w : World) (c : Controls) : Controls :=
  if 0 <? Z.of_nat (length (files w)) then
    setUploadDisabled (uploading w) (setControlsDisplay "block" c)
  else setControlsDisplay "none" c.

(** The controls show what the controller is doing. *)
Definition consistent (p : Page) : Prop :=
  controlsDisplay (controls p)
  = (if 0 <? Z.of_nat (length (files (logic p)))
     then "block"%string else "none"%string)
  /\ uploadDisabled (controls p) = uploading (logic p)
  /\ progressDisplay (controls p)
     = (if uploading (logic p) then "block"%string else "none"%string).

End Dom.

(** ** Facts about the built-ins *)

Lemma includes_In (l : list string) (x : string) :
  Js.includes l x = true <-> In x l.
Proof.
  unfold Js.includes. rewrite existsb_exists. split.
  - intros [y [Hy Heq]]. apply String.eqb_eq in Heq. now subst.
  - intros H. exists x. split; [assumption | apply String.eqb_refl].
Qed.

Lemma accepts_spec (options : Options) (f : File) :
  accepts options f = true <->
  In (type f) (acceptedTypes options) /\ size f <= maxFileSize options.
Proof.
  unfold accepts. rewrite andb_true_iff, includes_In, negb_true_iff.
  rewrite Z.gtb_ltb, Z.ltb_ge. reflexivity.
Qed.

Lemma splice_prefix {A : Type} (l : list A) (start : Z) :
  exists dropped, l = Js.splice l start ++ dropped.
Proof.
  unfold Js.splice. eexists. symmetry. apply firstn_skipn.
Qed.

Lemma splice_nonneg {A : Type} (l : list A) (start : Z) :
  0 <= start -> Js.splice l start = firstn (Z.to_nat start) l.
Proof.
  intros H. unfold Js.splice, Js.actualStart.
  destruct (start <? 0) eqn:E; [apply Z.ltb_lt in E; lia |].
  destruct (Z.le_gt_cases start (Z.of_nat (length l))) as [Hle | Hgt].
  - now rewrite Z.min_l.
  - rewrite Z.min_r by lia. rewrite Nat2Z.id.
    rewrite firstn_all. symmetry. apply firstn_all2. lia.
Qed.


(** ** Running the monad *)

Lemma bind_eq {A B : Type} (m : M A) (k : A -> M B) (w : World) :
  bind m k w
  = match m w with
    | mkRun (Normal a) w1 t1 =>
        match k a w1 with
        | mkRun c w2 t2 => mkRun c w2 (t1 ++ t2)
        end
    | mkRun (Throw e) w1 t1 => mkRun (Throw e) w1 t1
    | mkRun Suspended w1 t1 => mkRun Suspended w1 t1
    | mkRun OutOfFuel w1 t1 => mkRun OutOfFuel w1 t1
    end.
Proof. reflexivity. Qed.

(** Unfold the primitive operations and reduce the matches on runs. *)
Ltac prim :=
  cbv beta iota zeta delta
    [get modify emit ret throw rethrow suspend outOfFuel when
     tryCatch tryFinally].

Ltac run := repeat (rewrite bind_eq; prim).

(** ** Intake: [validateFile] and [addFiles] as list functions *)

Lemma showError_run (options : Options) (message : string) (w : World) :
  showError options message w = mkRun (Normal tt) w [report options message].
Proof. unfold showError, report. now destruct (onError options). Qed.

Lemma validateFile_run (options : Options) (f : File) (w : World) :
  validateFile options f w
  = mkRun (Normal (accepts options f)) w (rejection options f).
Proof.
  unfold validateFile, accepts, rejection.
  destruct (Js.includes (acceptedTypes options) (type f)); simpl.
  - destruct (size f >? maxFileSize options); simpl.
    + unfold bind. rewrite showError_run. reflexivity.
    + reflexivity.
  - unfold bind. rewrite showError_run. reflexivity.
Qed.

Lemma filterM_validateFile (options : Options) (l : list File) (w : World) :
  filterM (validateFile options) l w
  = mkRun (Normal (filter (accepts options) l)) w
      (flat_map (rejection options) l).
Proof.
  induction l as [| f l IH]; simpl.
  - reflexivity.
  - rewrite bind_eq, validateFile_run, bind_eq, IH. simpl.
    rewrite app_nil_r. reflexivity.
Qed.

Lemma forEach_push (clock : nat -> Id) (l : list File) (w : World) :
  forEach
    (fun f =>
       i <- freshId clock ;;
       push {| file := f; id := i; uploaded := false; progress := 0%Q |}) l w
  = mkRun (Normal tt)
      {| files := files w ++ wrap clock (ticks w) l;
         uploading := uploading w;
         ticks := (ticks w + length l)%nat;
         calls := calls w |} [].
Proof.
  revert w. induction l as [| f l IH]; intros w; simpl.
  - rewrite app_nil_r, Nat.add_0_r. now destruct w.
  - rewrite bind_eq. simpl. rewrite IH. simpl.
    rewrite <- app_assoc. simpl.
    now rewrite Nat.add_succ_r.
Qed.

Lemma addFiles_run (options : Options) (clock : nat -> Id)
  (batch : list File) (w : World) :
  addFiles options clock batch w
  = mkRun (Normal tt)
      {| files := files w ++ wrap clock (ticks w) (admitted options w batch);
         uploading := uploading w;
         ticks := (ticks w + length (admitted options w batch))%nat;
         calls := calls w |}
      (flat_map (rejection options) batch
         ++ (if overCapacity options w (filter (accepts options) batch)
             then [report options (maxFilesMessage options)] else [])
         ++ (if onFilesAdded options
                && (0 <? Z.of_nat (length (admitted options w batch)))
             then [FilesAdded (admitted options w batch)] else [])).
Proof.
  unfold addFiles, admitted, overCapacity.
  rewrite bind_eq, filterM_validateFile, bind_eq. simpl.
  set (valid := filter (accepts options) batch).
  rewrite bind_eq.
  destruct (Z.of_nat (length (files w)) + Z.of_nat (length valid)
              >? maxFiles options).
  - rewrite bind_eq, showError_run. simpl.
    rewrite bind_eq, forEach_push. simpl.
    destruct (onFilesAdded options && _); simpl; reflexivity.
  - simpl. rewrite bind_eq, forEach_push. simpl.
    destruct (onFilesAdded options && _); simpl;
      rewrite ?app_nil_r; reflexivity.
Qed.

(** ** Upload: the loop as a recursion over the tracked list *)

Lemma updateAt_app {A : Type} (f : A -> A) (done : list A) (x : A)
  (rest : list A) :
  updateAt (length done) f (done ++ x :: rest) = done ++ f x :: rest.
Proof. induction done as [| y done IH]; simpl; [| rewrite IH]; reflexivity. Qed.

Lemma nth_error_middle {A : Type} (done : list A) (x : A) (rest : list A) :
  nth_error (done ++ x :: rest) (length done) = Some x.
Proof. induction done as [| y done IH]; simpl; [reflexivity | exact IH]. Qed.

Lemma setFiles_files (w : World) : setFiles (files w) w = w.
Proof. now destruct w. Qed.

Lemma progressCallback_run (options : Options) (done : list FileObj)
  (fo o : FileObj) (rest : list FileObj) (p : Q) (w : World) :
  files w = done ++ o :: rest ->
  progressCallback options (length done) fo p w
  = mkRun (Normal tt) (setFiles (done ++ setProgress p o :: rest) w)
      (progressEvents options (file fo) [p]).
Proof.
  intros Hw. unfold progressCallback, mutate, progressEvents, when.
  rewrite bind_eq. simpl. rewrite Hw, updateAt_app.
  now destruct (onUploadProgress options).
Qed.

Lemma progressEvents_cons (options : Options) (f : File) (p : Q)
  (ps : list Q) :
  progressEvents options f (p :: ps)
  = progressEvents options f [p] ++ progressEvents options f ps.
Proof. unfold progressEvents. now destruct (onUploadProgress options). Qed.

Lemma progressCallbacks_run (options : Options) (done : list FileObj)
  (fo o : FileObj) (rest : list FileObj) (ps : list Q) (w : World) :
  files w = done ++ o :: rest ->
  forEach (progressCallback options (length done) fo) ps w
  = mkRun (Normal tt) (setFiles (done ++ afterReports ps o :: rest) w)
      (progressEvents options (file fo) ps).
Proof.
  revert o w. induction ps as [| p ps IH]; intros o w Hw; simpl.
  - unfold progressEvents. rewrite <- Hw, setFiles_files.
    now destruct (onUploadProgress options).
  - rewrite bind_eq, (progressCallback_run options done fo o rest p w Hw).
    rewrite (IH (setProgress p o)) by reflexivity.
    now rewrite (progressEvents_cons options (file fo) p ps).
Qed.

(** One iteration of the loop that reaches [uploadFile]. *)
Lemma uploadFile_run (options : Options) (fn : UploadFn)
  (done : list FileObj) (o : FileObj) (rest : list FileObj) (w : World) :
  files w = done ++ o :: rest ->
  uploadFile options fn (length done) o w
  = let b := fn (calls w) (file o) in
    let o1 := afterReports (reports b) o in
    let t1 := Upload (file o) :: progressEvents options (file o) (reports b) in
    match settles b with
    | Resolved =>
        mkRun (Normal tt)
          {| files := done ++ setUploaded o1 :: rest;
             uploading := uploading w; ticks := ticks w;
             calls := S (calls w) |} t1
    | Rejected e =>
        mkRun (Throw e)
          {| files := done ++ o1 :: rest;
             uploading := uploading w; ticks := ticks w;
             calls := S (calls w) |} t1
    | Pending =>
        mkRun Suspended
          {| files := done ++ o1 :: rest;
             uploading := uploading w; ticks := ticks w;
             calls := S (calls w) |} t1
    end.
Proof.
  intros Hw. unfold uploadFile, awaitUpload. prim. run.
  rewrite (progressCallbacks_run options done o o rest) by exact Hw.
  destruct (settles (fn (calls w) (file o))); prim; simpl.
  - unfold mutate. prim. simpl. rewrite updateAt_app.
    now rewrite !app_nil_r.
  - now rewrite !app_nil_r.
  - now rewrite !app_nil_r.
Qed.

Lemma nth_error_end {A : Type} (done : list A) :
  nth_error (done ++ []) (length done) = None.
Proof. apply nth_error_None. rewrite length_app. simpl. lia. Qed.

Lemma length_snoc {A : Type} (done : list A) (x : A) :
  S (length done) = length (done ++ [x]).
Proof. rewrite length_app. simpl. lia. Qed.

Lemma uploadLoop_run (options : Options) (fn : UploadFn)
  (rest : list FileObj) :
  forall (fuel : nat) (done : list FileObj) (w : World),
    files w = done ++ rest ->
    (length rest < fuel)%nat ->
    uploadLoop options fn fuel (length done) w
    = let r := uploadRest options fn (calls w) rest in
      mkRun (outcome r)
        {| files := done ++ entries r; uploading := uploading w;
           ticks := ticks w; calls := invoked r |}
        (emitted r).
Proof.
  induction rest as [| o rest IH]; intros fuel done w Hw Hfuel;
    (destruct fuel as [| fuel]; [simpl in Hfuel; lia |]);
    cbn [uploadLoop uploadRest]; run; rewrite Hw.
  - rewrite nth_error_end. prim. cbn [outcome entries invoked emitted].
    rewrite <- Hw. now destruct w.
  - rewrite nth_error_middle. run.
    simpl in Hfuel.
    destruct (uploaded o) eqn:Hup.
    + prim. rewrite (length_snoc done o).
      rewrite (IH fuel (done ++ [o]) w)
        by (rewrite <- ?app_assoc; simpl; (exact Hw || lia)).
      cbn [outcome entries invoked emitted app].
      now rewrite <- app_assoc.
    + rewrite (uploadFile_run options fn done o rest w Hw).
      cbv zeta.
      destruct (settles (fn (calls w) (file o))) as [| e |].
      * rewrite (length_snoc done
                   (setUploaded (afterReports (reports (fn (calls w) (file o))) o))).
        rewrite IH by (cbn [files]; rewrite <- ?app_assoc; simpl;
                       (reflexivity || lia)).
        cbn [outcome entries invoked emitted app calls uploading ticks].
        now rewrite <- app_assoc.
      * reflexivity.
      * reflexivity.
Qed.

Lemma startUpload_run (options : Options) (fn : UploadFn) (w : World) :
  onUpload options = Some fn ->
  uploading w = false ->
  startUpload options w
  = let r := uploadRest options fn (calls w) (files w) in
    match outcome r with
    | Normal _ =>
        mkRun (Normal tt) (settled w r false)
          (emitted r
             ++ (if onUploadComplete options
                 then [UploadComplete (map file (entries r))] else []))
    | Throw (Legible e) =>
        mkRun (Normal tt) (settled w r false)
          (emitted r ++ [report options ("Upload failed: " ++ e)])
    | Throw Illegible =>
        mkRun (Throw (Legible "TypeError")) (settled w r false) (emitted r)
    | Suspended => mkRun Suspended (settled w r true) (emitted r)
    | OutOfFuel => mkRun OutOfFuel (settled w r true) (emitted r)
    end.
Proof.
  intros Hfn Hidle. unfold startUpload. run. rewrite Hfn, Hidle. run.
  rewrite (uploadLoop_run options fn (files w) _ [] (setUploading true w))
    by (simpl; (reflexivity || lia)).
  cbv zeta. cbn [calls setUploading app uploading ticks].
  unfold settled.
  destruct (outcome (uploadRest options fn (calls w) (files w)))
    as [[] | [e |] | |].
  - destruct (onUploadComplete options); run; cbn [files setUploading];
      rewrite ?app_nil_r; reflexivity.
  - rewrite showError_run. cbn [setUploading files uploading ticks calls].
    now rewrite app_nil_r.
  - cbn [setUploading files uploading ticks calls]. now rewrite !app_nil_r.
  - reflexivity.
  - reflexivity.
Qed.

Lemma startUpload_guard (options : Options) (w : World) :
  onUpload options = None \/ uploading w = true ->
  startUpload options w = mkRun (Normal tt) w [].
Proof.
  intros H. unfold startUpload. run.
  destruct (onUpload options) as [fn |]; [| reflexivity].
  destruct H as [H | H]; [discriminate | now rewrite H].
Qed.

Lemma uploadRest_total (options : Options) (fn : UploadFn) (rest : list FileObj) :
  forall k, outcome (uploadRest options fn k rest) <> OutOfFuel.
Proof.
  induction rest as [| o rest IH]; intros k; simpl; [discriminate |].
  destruct (uploaded o); [apply IH |].
  destruct (settles (fn k (file o))); simpl; (apply IH || discriminate).
Qed.

(** ** Removal: [findIndex] and [splice] *)


Lemma findIndex_none {A : Type} (p : A -> bool) (l : list A) :
  (forall y, In y l -> p y = false) -> Js.findIndex p l = -1.
Proof.
  induction l as [| x l IH]; intros H; simpl; [reflexivity |].
  rewrite (H x) by now left.
  rewrite IH by (intros y Hy; apply H; now right).
  reflexivity.
Qed.

Lemma findIndex_first {A : Type} (p : A -> bool) (pre : list A) (x : A)
  (post : list A) :
  (forall y, In y pre -> p y = false) ->
  p x = true ->
  Js.findIndex p (pre ++ x :: post) = Z.of_nat (length pre).
Proof.
  induction pre as [| y pre IH]; intros Hpre Hx; simpl.
  - now rewrite Hx.
  - rewrite (Hpre y) by now left.
    rewrite IH by (try assumption; intros z Hz; apply Hpre; now right).
    destruct (Z.of_nat (length pre) <? 0) eqn:E; [apply Z.ltb_lt in E; lia |].
    lia.
Qed.

(** The first element that satisfies [p], with what is before and after. *)
Lemma first_split {A : Type} (p : A -> bool) (l : list A) :
  (exists x, In x l /\ p x = true) ->
  exists pre x post,
    l = pre ++ x :: post /\ p x = true /\ (forall y, In y pre -> p y = false).
Proof.
  induction l as [| a l IH]; intros [x [Hin Hx]]; [destruct Hin |].
  destruct (p a) eqn:Ha.
  - exists [], a, l. repeat split; [assumption | intros y []].
  - destruct IH as [pre [x' [post [Hl [Hx' Hpre]]]]].
    + destruct Hin as [-> | Hin]; [congruence | now exists x].
    + exists (a :: pre), x', post. subst l. repeat split; [assumption |].
      intros y [<- | Hy]; [assumption | now apply Hpre].
Qed.

Lemma splice1_middle {A : Type} (pre : list A) (x : A) (post : list A) :
  Js.splice1 (pre ++ x :: post) (Z.of_nat (length pre)) = pre ++ post.
Proof.
  unfold Js.splice1, Js.actualStart.
  destruct (Z.of_nat (length pre) <? 0) eqn:E; [apply Z.ltb_lt in E; lia |].
  rewrite Z.min_l by (rewrite length_app; simpl; lia).
  rewrite Nat2Z.id.
  rewrite firstn_app, Nat.sub_diag, firstn_all. simpl firstn.
  rewrite app_nil_r. f_equal. clear E.
  induction pre as [| y pre IH]; [reflexivity | exact IH].
Qed.

Lemma removeFile_found (options : Options) (fileId : Id) (w : World)
  (pre : list FileObj) (o : FileObj) (post : list FileObj) :
  files w = pre ++ o :: post ->
  id o = fileId ->
  (forall y, In y pre -> id y <> fileId) ->
  removeFile options fileId w
  = mkRun (Normal tt) (setFiles (pre ++ post) w)
      (if onFileRemoved options then [FileRemoved (file o)] else []).
Proof.
  intros Hw Ho Hpre. unfold removeFile. run.
  rewrite Hw.
  rewrite (findIndex_first (fun f => id f =? fileId) pre o post)
    by (try (apply Z.eqb_eq; assumption);
        intros y Hy; apply Z.eqb_neq; now apply Hpre).
  destruct (Z.of_nat (length pre) >? -1) eqn:E;
    [| rewrite Z.gtb_ltb in E; apply Z.ltb_ge in E; lia].
  rewrite Nat2Z.id, nth_error_middle. run.
  rewrite splice1_middle.
  now destruct (onFileRemoved options).
Qed.

Lemma removeFile_absent (options : Options) (fileId : Id) (w : World) :
  (forall y, In y (files w) -> id y <> fileId) ->
  removeFile options fileId w = mkRun (Normal tt) w [].
Proof.
  intros H. unfold removeFile. run.
  rewrite (findIndex_none (fun f => id f =? fileId) (files w))
    by (intros y Hy; apply Z.eqb_neq; now apply H).
  reflexivity.
Qed.

(** ** What the loop does to the tracked list and to the trace *)

Lemma uploads_app (a b : list Event) : uploads (a ++ b) = uploads a ++ uploads b.
Proof.
  induction a as [| e a IH]; [reflexivity |].
  destruct e; simpl; rewrite IH; reflexivity.
Qed.

Lemma errors_app (a b : list Event) : errors (a ++ b) = errors a ++ errors b.
Proof.
  induction a as [| e a IH]; [reflexivity |].
  destruct e; simpl; rewrite IH; reflexivity.
Qed.

Lemma completions_app (a b : list Event) :
  completions (a ++ b) = completions a ++ completions b.
Proof.
  induction a as [| e a IH]; [reflexivity |].
  destruct e; simpl; rewrite IH; reflexivity.
Qed.

Lemma filesAdded_app (a b : list Event) :
  filesAdded (a ++ b) = filesAdded a ++ filesAdded b.
Proof.
  induction a as [| e a IH]; [reflexivity |].
  destruct e; simpl; rewrite IH; reflexivity.
Qed.

Lemma filesRemoved_app (a b : list Event) :
  filesRemoved (a ++ b) = filesRemoved a ++ filesRemoved b.
Proof.
  induction a as [| e a IH]; [reflexivity |].
  destruct e; simpl; rewrite IH; reflexivity.
Qed.

(** Progress events are none of the other kinds. *)
Lemma progressEvents_quiet (options : Options) (f : File) (ps : list Q) :
  uploads (progressEvents options f ps) = []
  /\ errors (progressEvents options f ps) = []
  /\ completions (progressEvents options f ps) = []
  /\ filesAdded (progressEvents options f ps) = []
  /\ filesRemoved (progressEvents options f ps) = [].
Proof.
  unfold progressEvents. destruct (onUploadProgress options);
    [| now repeat split].
  induction ps as [| p ps IH]; [now repeat split |].
  simpl. exact IH.
Qed.

Lemma afterReports_fields (ps : list Q) (o : FileObj) :
  file (afterReports ps o) = file o
  /\ id (afterReports ps o) = id o
  /\ uploaded (afterReports ps o) = uploaded o.
Proof.
  revert o. induction ps as [| p ps IH]; intros o; [now repeat split |].
  simpl. destruct (IH (setProgress p o)) as [H1 [H2 H3]].
  now rewrite H1, H2, H3.
Qed.

(** The loop keeps the entries, their files and their identifiers. *)
Lemma uploadRest_shape (options : Options) (fn : UploadFn)
  (rest : list FileObj) :
  forall k,
    map file (entries (uploadRest options fn k rest)) = map file rest
    /\ map id (entries (uploadRest options fn k rest)) = map id rest.
Proof.
  induction rest as [| o rest IH]; intros k; simpl; [now split |].
  destruct (uploaded o).
  - simpl. destruct (IH k) as [H1 H2]. now rewrite H1, H2.
  - destruct (afterReports_fields (reports (fn k (file o))) o) as [Hf [Hi _]].
    destruct (settles (fn k (file o))); simpl; rewrite Hf, Hi.
    + destruct (IH (S k)) as [H1 H2]. now rewrite H1, H2.
    + now split.
    + now split.
Qed.

Lemma uploadRest_length (options : Options) (fn : UploadFn) (k : nat)
  (rest : list FileObj) :
  length (entries (uploadRest options fn k rest)) = length rest.
Proof.
  rewrite <- (length_map file), (proj1 (uploadRest_shape options fn rest k)).
  apply length_map.
Qed.

(** The loop only invokes the upload function and the progress hook. *)
Lemma uploadRest_quiet (options : Options) (fn : UploadFn)
  (rest : list FileObj) :
  forall k,
    errors (emitted (uploadRest options fn k rest)) = []
    /\ completions (emitted (uploadRest options fn k rest)) = []
    /\ filesAdded (emitted (uploadRest options fn k rest)) = []
    /\ filesRemoved (emitted (uploadRest options fn k rest)) = [].
Proof.
  induction rest as [| o rest IH]; intros k; simpl; [now repeat split |].
  destruct (uploaded o); [exact (IH k) |].
  destruct (progressEvents_quiet options (file o) (reports (fn k (file o))))
    as [_ [He [Hc [Ha Hr]]]].
  destruct (settles (fn k (file o))); simpl;
    rewrite ?errors_app, ?completions_app, ?filesAdded_app, ?filesRemoved_app,
      He, Hc, Ha, Hr; simpl; [exact (IH (S k)) | now repeat split ..].
Qed.


Lemma resolvesAll_uploaded (fn : UploadFn) (k : nat) (o : FileObj)
  (l : list FileObj) :
  uploaded o = true -> resolvesAll fn k (o :: l) -> resolvesAll fn k l.
Proof.
  intros Ho H n x Hn. apply H. unfold pending in *. simpl. now rewrite Ho.
Qed.

Lemma resolvesAll_head (fn : UploadFn) (k : nat) (o : FileObj)
  (l : list FileObj) :
  uploaded o = false -> resolvesAll fn k (o :: l) ->
  settles (fn k (file o)) = Resolved.
Proof.
  intros Ho H. rewrite <- (Nat.add_0_r k). apply H.
  unfold pending. simpl. now rewrite Ho.
Qed.

Lemma resolvesAll_tail (fn : UploadFn) (k : nat) (o : FileObj)
  (l : list FileObj) :
  uploaded o = false -> resolvesAll fn k (o :: l) -> resolvesAll fn (S k) l.
Proof.
  intros Ho H n x Hn.
  replace (S k + n)%nat with (k + S n)%nat by lia.
  apply H. unfold pending in *. simpl. now rewrite Ho.
Qed.


(** When every invocation resolves, the loop runs to its end. *)
Lemma uploadRest_resolved (options : Options) (fn : UploadFn)
  (rest : list FileObj) :
  forall k,
    resolvesAll fn k rest ->
    let r := uploadRest options fn k rest in
    outcome r = Normal tt
    /\ uploads (emitted r) = map file (pending rest)
    /\ Forall (fun o => uploaded o = true) (entries r)
    /\ invoked r = (k + length (pending rest))%nat.
Proof.
  induction rest as [| o rest IH]; intros k H; cbv zeta.
  - simpl. repeat split; [constructor | lia].
  - unfold pending. simpl. destruct (uploaded o) eqn:Ho; simpl.
    + destruct (IH k (resolvesAll_uploaded fn k o rest Ho H))
        as [H1 [H2 [H3 H4]]].
      repeat split; try assumption. now constructor.
    + rewrite (resolvesAll_head fn k o rest Ho H). simpl.
      destruct (IH (S k) (resolvesAll_tail fn k o rest Ho H))
        as [H1 [H2 [H3 H4]]].
      destruct (progressEvents_quiet options (file o) (reports (fn k (file o))))
        as [Hu _].
      rewrite uploads_app, Hu. simpl.
      repeat split; try assumption.
      * now rewrite H2.
      * now constructor.
      * rewrite H4. unfold pending. lia.
Qed.

(** The loop over [pre ++ l], when it comes through [pre]. *)
Lemma uploadRest_app (options : Options) (fn : UploadFn)
  (pre l : list FileObj) :
  forall k,
    outcome (uploadRest options fn k pre) = Normal tt ->
    uploadRest options fn k (pre ++ l)
    = let r1 := uploadRest options fn k pre in
      let r2 := uploadRest options fn (invoked r1) l in
      mkRest (outcome r2) (entries r1 ++ entries r2) (invoked r2)
        (emitted r1 ++ emitted r2).
Proof.
  induction pre as [| o pre IH]; intros k H; cbv zeta.
  - simpl. now destruct (uploadRest options fn k l).
  - simpl in *. destruct (uploaded o).
    + simpl in *. rewrite (IH k H). reflexivity.
    + destruct (settles (fn k (file o))); simpl in *; try discriminate.
      rewrite (IH (S k) H). simpl. now rewrite app_assoc.
Qed.

(** The loop when the upload function rejects the entry [o], after it
    resolved on the pending entries before it. *)
Lemma uploadRest_rejected (options : Options) (fn : UploadFn) (k : nat)
  (pre : list FileObj) (o : FileObj) (post : list FileObj) (e : Thrown) :
  uploaded o = false ->
  resolvesAll fn k pre ->
  settles (fn (k + length (pending pre))%nat (file o)) = Rejected e ->
  let r1 := uploadRest options fn k pre in
  let b := fn (k + length (pending pre))%nat (file o) in
  uploadRest options fn k (pre ++ o :: post)
  = mkRest (Throw e)
      (entries r1 ++ afterReports (reports b) o :: post)
      (S (k + length (pending pre)))
      (emitted r1
         ++ Upload (file o) :: progressEvents options (file o) (reports b)).
Proof.
  intros Ho Hpre He. cbv zeta.
  destruct (uploadRest_resolved options fn pre k Hpre) as [H1 [_ [_ H4]]].
  rewrite (uploadRest_app options fn pre (o :: post) k H1). cbv zeta.
  rewrite H4. simpl. rewrite Ho, He. reflexivity.
Qed.


(** [startUpload] always returns, throws or stops at a promise that
    never settles: the bound of the loop is large enough. *)
Lemma startUpload_total (options : Options) (w : World) :
  completion (startUpload options w) = Normal tt
  \/ completion (startUpload options w) = Throw (Legible "TypeError")
  \/ completion (startUpload options w) = Suspended.
Proof.
  destruct (onUpload options) as [fn |] eqn:Hfn;
    [| rewrite startUpload_guard by (now left); now left].
  destruct (uploading w) eqn:Hw;
    [rewrite startUpload_guard by (now right); now left |].
  rewrite (startUpload_run options fn w Hfn Hw). cbv zeta.
  pose proof (uploadRest_total options fn (files w) (calls w)) as Ht.
  destruct (outcome (uploadRest options fn (calls w) (files w)))
    as [[] | [? |] | |]; cbn [completion]; tauto.
Qed.


(** ** What intake keeps *)

Lemma map_file_wrap (clock : nat -> Id) (l : list File) :
  forall k, map file (wrap clock k l) = l.
Proof.
  induction l as [| f l IH]; intros k; simpl; [| rewrite IH]; reflexivity.
Qed.

Lemma length_wrap (clock : nat -> Id) (k : nat) (l : list File) :
  length (wrap clock k l) = length l.
Proof. rewrite <- (length_map file), map_file_wrap. reflexivity. Qed.

Lemma wrap_fresh (clock : nat -> Id) (l : list File) :
  forall k o,
    In o (wrap clock k l) -> uploaded o = false /\ progress o = 0%Q.
Proof.
  induction l as [| f l IH]; intros k o H; simpl in H; [destruct H |].
  destruct H as [<- | H]; [now split | exact (IH (S k) o H)].
Qed.

Lemma admitted_prefix (options : Options) (w : World) (batch : list File) :
  exists dropped,
    filter (accepts options) batch = admitted options w batch ++ dropped.
Proof.
  unfold admitted. destruct (overCapacity options w _).
  - apply splice_prefix.
  - exists []. now rewrite app_nil_r.
Qed.

Lemma admitted_accepts (options : Options) (w : World) (batch : list File)
  (f : File) :
  In f (admitted options w batch) -> In f batch /\ accepts options f = true.
Proof.
  intros H. destruct (admitted_prefix options w batch) as [dropped Hd].
  apply filter_In. rewrite Hd. apply in_or_app. now left.
Qed.

Lemma admitted_within (options : Options) (w : World) (batch : list File) :
  Z.of_nat (length (files w)) <= maxFiles options ->
  admitted options w batch
  = firstn (Z.to_nat (maxFiles options - Z.of_nat (length (files w))))
      (filter (accepts options) batch).
Proof.
  intros H. unfold admitted, overCapacity.
  destruct (_ >? _) eqn:E.
  - apply splice_nonneg. lia.
  - rewrite Z.gtb_ltb in E. apply Z.ltb_ge in E.
    symmetry. apply firstn_all2. lia.
Qed.


Lemma rejection_length (options : Options) (f : File) :
  (length (rejection options f) <= 1)%nat.
Proof.
  unfold rejection.
  destruct (negb _); [simpl; lia |].
  destruct (_ >? _); simpl; lia.
Qed.

Lemma errors_report (options : Options) (message : string) :
  errors [report options message] = [message].
Proof. unfold report. now destruct (onError options). Qed.

Lemma append_cancel (a b c : string) :
  (a ++ b)%string = (a ++ c)%string -> b = c.
Proof.
  induction a as [| ch a IH]; simpl; intros H; [assumption |].
  injection H as H. now apply IH.
Qed.

Lemma messages_differ (options : Options) (f : File) :
  invalidTypeMessage f <> tooLargeMessage options f.
Proof.
  unfold invalidTypeMessage, tooLargeMessage. intros H.
  apply append_cancel in H. discriminate H.
Qed.

Lemma filesAdded_report (options : Options) (message : string) :
  filesAdded [report options message] = [].
Proof. unfold report. now destruct (onError options). Qed.

Lemma filesAdded_rejections (options : Options) (l : list File) :
  filesAdded (flat_map (rejection options) l) = [].
Proof.
  induction l as [| f l IH]; [reflexivity |].
  simpl. rewrite filesAdded_app, IH, app_nil_r.
  unfold rejection.
  destruct (negb _); [apply filesAdded_report |].
  destruct (_ >? _); [apply filesAdded_report | reflexivity].
Qed.

(** ** Invariants of a session *)

Lemma removeFile_cases (options : Options) (fileId : Id) (w : World) :
  removeFile options fileId w = mkRun (Normal tt) w []
  \/ exists pre o post,
       files w = pre ++ o :: post
       /\ removeFile options fileId w
          = mkRun (Normal tt) (setFiles (pre ++ post) w)
              (if onFileRemoved options then [FileRemoved (file o)] else []).
Proof.
  destruct (existsb (fun o => id o =? fileId) (files w)) eqn:E.
  - right. apply existsb_exists in E.
    destruct (first_split (fun f => id f =? fileId) (files w) E)
      as [pre [o [post [Hw [Ho Hpre]]]]].
    exists pre, o, post. split; [assumption |].
    apply removeFile_found; [assumption | now apply Z.eqb_eq |].
    intros y Hy. apply Z.eqb_neq. now apply Hpre.
  - left. apply removeFile_absent. intros y Hy. apply Z.eqb_neq.
    destruct (id y =? fileId) eqn:Ey; [| reflexivity].
    rewrite <- E. symmetry. apply existsb_exists. now exists y.
Qed.

Lemma startUpload_cases (options : Options) (w : World) :
  startUpload options w = mkRun (Normal tt) w []
  \/ exists fn,
       onUpload options = Some fn /\ uploading w = false
       /\ files (final (startUpload options w))
          = entries (uploadRest options fn (calls w) (files w)).
Proof.
  destruct (onUpload options) as [fn |] eqn:Hfn;
    [| left; apply startUpload_guard; now left].
  destruct (uploading w) eqn:Hw;
    [left; apply startUpload_guard; now right |].
  right. exists fn. repeat split.
  rewrite (startUpload_run options fn w Hfn Hw). cbv zeta.
  now destruct (outcome (uploadRest options fn (calls w) (files w)))
    as [? | [? |] | |].
Qed.

Lemma startUpload_length (options : Options) (w : World) :
  length (files (final (startUpload options w))) = length (files w).
Proof.
  destruct (startUpload_cases options w) as [H | [fn [_ [_ H]]]];
    rewrite H; [reflexivity | apply uploadRest_length].
Qed.

(** No call lets the tracked list grow beyond a non-negative maximum. *)
Lemma call_within_capacity (options : Options) (clock : nat -> Id)
  (c : Call) (w : World) :
  0 <= maxFiles options ->
  Z.of_nat (length (files w)) <= maxFiles options ->
  Z.of_nat (length (files (final (call options clock c w))))
  <= maxFiles options.
Proof.
  intros Hmax Hw. destruct c as [batch | fileId | |]; cbn [call].
  - rewrite addFiles_run. cbn [final files].
    rewrite length_app, length_wrap, (admitted_within options w batch Hw).
    rewrite length_firstn. lia.
  - destruct (removeFile_cases options fileId w)
      as [H | [pre [o [post [Hfiles H]]]]]; rewrite H; cbn [final files setFiles].
    + assumption.
    + rewrite Hfiles, length_app in Hw. simpl in Hw.
      rewrite length_app. lia.
  - now rewrite startUpload_length.
  - unfold clear. prim. simpl. assumption.
Qed.

Lemma session_within_capacity (options : Options) (clock : nat -> Id)
  (cs : list Call) :
  forall w,
    0 <= maxFiles options ->
    Z.of_nat (length (files w)) <= maxFiles options ->
    Z.of_nat (length (files (session options clock cs w))) <= maxFiles options.
Proof.
  induction cs as [| c cs IH]; intros w Hmax Hw; simpl; [assumption |].
  apply IH; [assumption |]. now apply call_within_capacity.
Qed.

(** ** Stored progress *)

Lemma last_cons_default {A : Type} (l : list A) :
  forall (x d : A), last (x :: l) d = last l x.
Proof.
  induction l as [| y l IH]; intros x d; [reflexivity |].
  change (last (x :: y :: l) d) with (last (y :: l) d).
  now rewrite !IH.
Qed.

(** After the callbacks, the stored progress is the last value passed. *)
Lemma afterReports_last (ps : list Q) :
  forall o, progress (afterReports ps o) = last ps (progress o).
Proof.
  induction ps as [| p ps IH]; intros o; [reflexivity |].
  rewrite last_cons_default. simpl afterReports. now rewrite IH.
Qed.

Lemma afterReports_percentage (ps : list Q) :
  forall o,
    (forall p, In p ps -> percentage p) ->
    percentage (progress o) ->
    percentage (progress (afterReports ps o)).
Proof.
  induction ps as [| p ps IH]; intros o Hps Ho; [exact Ho |].
  simpl afterReports. apply IH.
  - intros q Hq. apply Hps. now right.
  - simpl. apply Hps. now left.
Qed.

Lemma uploadRest_percentage (options : Options) (fn : UploadFn)
  (rest : list FileObj) :
  (forall k f p, In p (reports (fn k f)) -> percentage p) ->
  forall k,
    Forall (fun o => percentage (progress o)) rest ->
    Forall (fun o => percentage (progress o))
      (entries (uploadRest options fn k rest)).
Proof.
  intros Hfn. induction rest as [| o rest IH]; intros k H; simpl;
    [constructor |].
  inversion H as [| o' rest' Ho Hrest]; subst.
  destruct (uploaded o); simpl.
  - constructor; [assumption | now apply IH].
  - assert (Ho1 : percentage
                    (progress (afterReports (reports (fn k (file o))) o)))
      by (apply afterReports_percentage; [apply Hfn | assumption]).
    destruct (settles (fn k (file o))); simpl;
      constructor; try assumption. now apply IH.
Qed.

Lemma call_percentage (options : Options) (clock : nat -> Id) (c : Call)
  (w : World) :
  (forall fn k f p,
      onUpload options = Some fn -> In p (reports (fn k f)) -> percentage p) ->
  Forall (fun o => percentage (progress o)) (files w) ->
  Forall (fun o => percentage (progress o))
    (files (final (call options clock c w))).
Proof.
  intros Hfn Hw. destruct c as [batch | fileId | |]; cbn [call].
  - rewrite addFiles_run. cbn [final files].
    apply Forall_app. split; [assumption |].
    apply Forall_forall. intros o Ho.
    apply wrap_fresh in Ho. destruct Ho as [_ Ho]. rewrite Ho.
    split; discriminate.
  - destruct (removeFile_cases options fileId w)
      as [H | [pre [o [post [Hfiles H]]]]]; rewrite H; cbn [final files setFiles].
    + assumption.
    + rewrite Hfiles in Hw. apply Forall_app in Hw. destruct Hw as [H1 H2].
      inversion H2; subst. apply Forall_app. now split.
  - destruct (startUpload_cases options w) as [H | [fn [Hon [_ H]]]];
      rewrite H; [assumption |].
    apply uploadRest_percentage; [| assumption].
    intros k f p. now apply Hfn.
  - unfold clear. prim. simpl. constructor.
Qed.

Lemma session_percentage (options : Options) (clock : nat -> Id)
  (cs : list Call) :
  (forall fn k f p,
      onUpload options = Some fn -> In p (reports (fn k f)) -> percentage p) ->
  forall w,
    Forall (fun o => percentage (progress o)) (files w) ->
    Forall (fun o => percentage (progress o))
      (files (session options clock cs w)).
Proof.
  intros Hfn. induction cs as [| c cs IH]; intros w Hw; simpl; [assumption |].
  apply IH. now apply call_percentage.
Qed.

(** ** Every tracked file passed validation *)

Lemma call_accepts (options : Options) (clock : nat -> Id) (c : Call)
  (w : World) :
  Forall (fun f => accepts options f = true) (map file (files w)) ->
  Forall (fun f => accepts options f = true)
    (map file (files (final (call options clock c w)))).
Proof.
  intros Hw. destruct c as [batch | fileId | |]; cbn [call].
  - rewrite addFiles_run. cbn [final files].
    rewrite map_app, map_file_wrap. apply Forall_app. split; [assumption |].
    apply Forall_forall. intros f Hf.
    now apply admitted_accepts in Hf.
  - destruct (removeFile_cases options fileId w)
      as [H | [pre [o [post [Hfiles H]]]]]; rewrite H; cbn [final files setFiles].
    + assumption.
    + rewrite Hfiles, map_app in Hw. apply Forall_app in Hw.
      destruct Hw as [H1 H2]. simpl in H2. inversion H2; subst.
      rewrite map_app. apply Forall_app. now split.
  - destruct (startUpload_cases options w) as [H | [fn [_ [_ H]]]];
      rewrite H; [assumption |].
    now rewrite (proj1 (uploadRest_shape options fn (files w) (calls w))).
  - unfold clear. prim. simpl. constructor.
Qed.

Lemma session_accepts (options : Options) (clock : nat -> Id)
  (cs : list Call) :
  forall w,
    Forall (fun f => accepts options f = true) (map file (files w)) ->
    Forall (fun f => accepts options f = true)
      (map file (files (session options clock cs w))).
Proof.
  induction cs as [| c cs IH]; intros w Hw; simpl; [assumption |].
  apply IH. now apply call_accepts.
Qed.

(** * The claims *)




(** The scenario of the specification: A is uploaded, B fails, C is not
    touched; a second call invokes the upload function on B and C. *)
Example retry_after_failure :
  let options := defaults (Some flaky) in
  let w := session options counter [AddFiles [fileA; fileB; fileC]] initial in
  let r1 := startUpload options w in
  let r2 := startUpload options (final r1) in
  uploads (trace r1) = [fileA; fileB]
  /\ map uploaded (files (final r1)) = [true; false; false]
  /\ errors (trace r1) = ["Upload failed: network"%string]
  /\ uploading (final r1) = false
  /\ uploads (trace r2) = [fileB; fileC]
  /\ completions (trace r2) = [[fileA; fileB; fileC]].
Proof. cbv zeta. repeat split; reflexivity. Qed.

(** C2 (as amended): when the configured maximum is not negative, the
    number of tracked entries does not exceed it after any sequence of
    [addFiles] calls on a new widget. *)
Theorem intake_within_capacity (options : Options) (clock : nat -> Id)
  (batches : list (list File)) :
  0 <= maxFiles options ->
  Z.of_nat (length (files (session options clock (map AddFiles batches) initial)))
  <= maxFiles options.
Proof.
  intros Hmax.
  assert (Hinv : forall w,
             Z.of_nat (length (files w)) <= maxFiles options ->
             Z.of_nat (length (files (session options clock
                                        (map AddFiles batches) w)))
             <= maxFiles options).
  { induction batches as [| batch batches IH]; intros w Hw; simpl;
      [assumption |].
    apply IH. rewrite addFiles_run. cbn [final files].
    rewrite length_app, length_wrap, (admitted_within options w batch Hw).
    rewrite length_firstn. lia. }
  apply Hinv. simpl. lia.
Qed.

Lemma intake_within_capacity_witness :
  let options := withMaxFiles 2 (defaults None) in
  0 <= maxFiles options
  /\ Z.of_nat (length (files (session options counter
                                (map AddFiles [[fileA; fileB; fileC]; [fileA]])
                                initial))) <= maxFiles options.
Proof.
  cbv zeta. split.
  - simpl. lia.
  - apply (intake_within_capacity (withMaxFiles 2 (defaults None))).
    simpl. lia.
Defined.

(** C2 (as stated) fails for a negative maximum: with [maxFiles = -1],
    [splice(-1)] removes only the last of three valid files, and two
    entries are tracked. *)
Lemma intake_exceeds_negative_maximum :
  let options := withMaxFiles (-1) (defaults None) in
  let w := session options counter
             (map AddFiles [[fileA; fileB; fileC]]) initial in
  getFiles w = [fileA; fileB]
  /\ ~ (Z.of_nat (length (files w)) <= maxFiles options).
Proof.
  cbv zeta. split; [reflexivity |].
  vm_compute. intros H. apply H. reflexivity.
Qed.

(** C3: [addFiles] appends entries for the valid files of the batch, in
    the order of the batch; when the tracked and the valid files together
    exceed the maximum, the valid files are cut at the tail (the first
    ones are kept, up to the capacity that is left) and [showError] is
    called once for the batch, after the reports about invalid files;
    the files-added hook is called once, with the accepted files, when
    there is at least one, and not at all otherwise (nor when no such
    hook is configured). *)
Theorem addFiles_appends (options : Options) (clock : nat -> Id)
  (batch : list File) (w : World) :
  let r := addFiles options clock batch w in
  let valid := filter (accepts options) batch in
  let kept := admitted options w batch in
  completion r = Normal tt
  /\ (forall f, In f valid <->
                In f batch /\ In (type f) (acceptedTypes options)
                /\ size f <= maxFileSize options)
  /\ files (final r) = files w ++ wrap clock (ticks w) kept
  /\ map file (wrap clock (ticks w) kept) = kept
  /\ (exists dropped, valid = kept ++ dropped)
  /\ (overCapacity options w valid = false -> kept = valid)
  /\ (Z.of_nat (length (files w)) <= maxFiles options ->
      kept = firstn (Z.to_nat (maxFiles options - Z.of_nat (length (files w))))
               valid)
  /\ errors (trace r)
     = errors (flat_map (rejection options) batch)
         ++ (if overCapacity options w valid
             then [maxFilesMessage options] else [])
  /\ filesAdded (trace r)
     = (if onFilesAdded options
        then match kept with [] => [] | _ :: _ => [kept] end
        else []).
Proof.
  cbv zeta. rewrite addFiles_run. cbn [completion final files trace].
  refine (conj eq_refl (conj _ (conj eq_refl (conj _ (conj _ (conj _
           (conj _ (conj _ _)))))))).
  - intros f. rewrite filter_In, accepts_spec. tauto.
  - apply map_file_wrap.
  - apply admitted_prefix.
  - intros H. unfold admitted. now rewrite H.
  - apply admitted_within.
  - rewrite !errors_app. f_equal.
    destruct (overCapacity options w _); rewrite ?errors_report;
      destruct (onFilesAdded options && _); reflexivity.
  - rewrite !filesAdded_app, filesAdded_rejections. cbn [app].
    assert (Hcap : forall b : bool,
               filesAdded (if b then [report options (maxFilesMessage options)]
                           else []) = []).
    { intros []; [apply filesAdded_report | reflexivity]. }
    rewrite Hcap. cbn [app].
    destruct (onFilesAdded options); cbn [andb]; [| reflexivity].
    destruct (admitted options w batch); reflexivity.
Qed.

Lemma addFiles_appends_witness :
  let options := withMaxFiles 2 (defaults None) in
  let r := addFiles options counter [fileA; fileB; fileC] initial in
  Z.of_nat (length (files initial)) <= maxFiles options
  /\ admitted options initial [fileA; fileB; fileC] = [fileA; fileB]
  /\ map file (files (final r)) = [fileA; fileB]
  /\ errors (trace r) = ["Maximum 2 files allowed"%string]
  /\ filesAdded (trace r) = [[fileA; fileB]].
Proof.
  cbv zeta.
  assert (Hcap : Z.of_nat (length (files initial))
                 <= maxFiles (withMaxFiles 2 (defaults None)))
    by (simpl; lia).
  destruct (addFiles_appends (withMaxFiles 2 (defaults None)) counter
              [fileA; fileB; fileC] initial)
    as [_ [_ [Hfiles [Hmap [_ [_ [Hkept [Herr Hadded]]]]]]]].
  cbv zeta in *.
  split; [exact Hcap |].
  split; [rewrite (Hkept Hcap); reflexivity |].
  split; [rewrite Hfiles; reflexivity |].
  split; [rewrite Herr; reflexivity | rewrite Hadded; reflexivity].
Defined.

(** C4: a file of the batch that is larger than the configured maximum
    or whose type is not among the accepted ones is not among the
    entries [addFiles] appends, and [showError] is called with a message
    about this file (its name and the violated rule); such a file is
    tracked in no state a new widget can reach. *)
Theorem addFiles_rejects (options : Options) (clock : nat -> Id)
  (batch : list File) (w : World) (f : File) :
  In f batch ->
  size f > maxFileSize options \/ ~ In (type f) (acceptedTypes options) ->
  let r := addFiles options clock batch w in
  (exists added,
      files (final r) = files w ++ added /\ ~ In f (map file added))
  /\ (exists message,
        (message = invalidTypeMessage f
         \/ message = tooLargeMessage options f)
        /\ In (report options message) (trace r)
        /\ In message (errors (trace r)))
  /\ (forall cs, ~ In f (getFiles (session options clock cs initial))).
Proof.
  intros Hin Hbad. cbv zeta. rewrite addFiles_run. cbn [final files trace].
  assert (Hacc : accepts options f = false).
  { destruct (accepts options f) eqn:E; [| reflexivity].
    apply accepts_spec in E. destruct E as [E1 E2].
    destruct Hbad as [Hbad | Hbad]; [lia | contradiction]. }
  refine (conj _ (conj _ _)); cycle 2.
  { intros cs Hf.
    pose proof (session_accepts options clock cs initial (Forall_nil _)) as H.
    rewrite Forall_forall in H. apply H in Hf. congruence. }
  - eexists. split; [reflexivity |]. rewrite map_file_wrap.
    intros H. apply admitted_accepts in H. destruct H as [_ H]. congruence.
  - assert (Hrej : exists message,
               (message = invalidTypeMessage f
                \/ message = tooLargeMessage options f)
               /\ rejection options f = [report options message]).
    { unfold rejection. unfold accepts in Hacc.
      destruct (Js.includes (acceptedTypes options) (type f)); simpl in *.
      - apply negb_false_iff in Hacc. rewrite Hacc.
        eexists. split; [right; reflexivity | reflexivity].
      - eexists. split; [left; reflexivity | reflexivity]. }
    destruct Hrej as [message [Hm Hrej]]. exists message.
    assert (Hev : In (report options message)
                    (flat_map (rejection options) batch)).
    { apply in_flat_map. exists f. split; [assumption |].
      rewrite Hrej. now left. }
    repeat split; [assumption | apply in_or_app; now left |].
    rewrite errors_app. apply in_or_app. left.
    apply in_split in Hev. destruct Hev as [a [b Hab]]. rewrite Hab.
    rewrite errors_app. apply in_or_app. right.
    change (report options message :: b) with ([report options message] ++ b).
    rewrite errors_app, errors_report. now left.
Qed.

Lemma addFiles_rejects_witness :
  let options := defaults None in
  let r := addFiles options counter [fileA; poster] initial in
  (In poster [fileA; poster]
   /\ (size poster > maxFileSize options
       \/ ~ In (type poster) (acceptedTypes options)))
  /\ (exists added,
        files (final r) = files initial ++ added
        /\ ~ In poster (map file added)).
Proof.
  cbv zeta.
  assert (Hin : In poster [fileA; poster]) by (right; left; reflexivity).
  assert (Hbad : size poster > maxFileSize (defaults None)
                 \/ ~ In (type poster) (acceptedTypes (defaults None)))
    by (left; reflexivity).
  split; [now split |].
  exact (proj1 (addFiles_rejects (defaults None) counter [fileA; poster]
                  initial poster Hin Hbad)).
Defined.

(** A JPEG of 20MB with the default maximum of 10MB: nothing is tracked,
    one error is reported and the files-added hook is not called. *)
Example oversized_jpeg :
  let r := addFiles (defaults None) counter [poster] initial in
  files (final r) = []
  /\ trace r = [Error "poster.jpg: File too large (max 10.0MB)"].
Proof. cbv zeta. split; reflexivity. Qed.

(** C5: when [startUpload] runs (an upload function is configured and
    the widget is idle) and the upload function resolves on every entry
    it is invoked on, the run returns, every pending entry has been
    uploaded in tracked order, no error is reported, and the
    upload-complete hook (when configured) is called exactly once, as the
    last event, with the files of all tracked entries. *)
Theorem startUpload_complete (options : Options) (fn : UploadFn) (w : World) :
  onUpload options = Some fn ->
  uploading w = false ->
  resolvesAll fn (calls w) (files w) ->
  let r := startUpload options w in
  completion r = Normal tt
  /\ uploading (final r) = false
  /\ getFiles (final r) = getFiles w
  /\ Forall (fun o => uploaded o = true) (files (final r))
  /\ uploads (trace r) = map file (pending (files w))
  /\ errors (trace r) = []
  /\ completions (trace r)
     = (if onUploadComplete options then [getFiles (final r)] else [])
  /\ exists tr,
       completions tr = []
       /\ trace r
          = tr ++ (if onUploadComplete options
                   then [UploadComplete (getFiles (final r))] else []).
Proof.
  intros Hfn Hidle Hall. cbv zeta.
  rewrite (startUpload_run options fn w Hfn Hidle). cbv zeta.
  destruct (uploadRest_resolved options fn (files w) (calls w) Hall)
    as [H1 [H2 [H3 _]]].
  destruct (uploadRest_quiet options fn (files w) (calls w))
    as [He [Hc _]].
  rewrite H1. unfold getFiles. cbn [completion final trace files uploading settled].
  rewrite uploads_app, errors_app, completions_app, H2, He, Hc.
  refine (conj eq_refl (conj eq_refl (conj _ (conj H3 (conj _ (conj _
           (conj _ _))))))).
  - apply uploadRest_shape.
  - destruct (onUploadComplete options); simpl; now rewrite app_nil_r.
  - now destruct (onUploadComplete options).
  - now destruct (onUploadComplete options).
  - exists (emitted (uploadRest options fn (calls w) (files w))).
    split; [exact Hc | reflexivity].
Qed.

Lemma startUpload_complete_witness :
  let options := defaults (Some steady) in
  let w := session options counter [AddFiles [fileA; fileB]] initial in
  (onUpload options = Some steady
   /\ uploading w = false
   /\ resolvesAll steady (calls w) (files w))
  /\ completions (trace (startUpload options w)) = [[fileA; fileB]].
Proof.
  cbv zeta.
  assert (Hall : resolvesAll steady
                   (calls (session (defaults (Some steady)) counter
                             [AddFiles [fileA; fileB]] initial))
                   (files (session (defaults (Some steady)) counter
                             [AddFiles [fileA; fileB]] initial)))
    by (intros n o _; reflexivity).
  split; [repeat split; exact Hall |].
  destruct (startUpload_complete (defaults (Some steady)) steady
              (session (defaults (Some steady)) counter
                 [AddFiles [fileA; fileB]] initial)
              eq_refl eq_refl Hall) as [_ [_ [Hfiles [_ [_ [_ [Hc _]]]]]]].
  cbv zeta in Hc. rewrite Hc, Hfiles. reflexivity.
Defined.

(** C6: [removeFile(fileId)].  When an entry with this identifier is
    tracked, the first such entry is taken out: the count drops by one,
    the other entries stay in order, and the file-removed hook (when
    configured) is called once, with the file of the removed entry.
    When no entry has this identifier nothing changes and no hook is
    called. *)
Theorem removeFile_by_identifier (options : Options) (fileId : Id) (w : World) :
  let r := removeFile options fileId w in
  ((exists o, In o (files w) /\ id o = fileId) ->
   exists pre o post,
     files w = pre ++ o :: post
     /\ id o = fileId
     /\ (forall y, In y pre -> id y <> fileId)
     /\ completion r = Normal tt
     /\ files (final r) = pre ++ post
     /\ S (length (files (final r))) = length (files w)
     /\ uploading (final r) = uploading w
     /\ trace r = (if onFileRemoved options then [FileRemoved (file o)] else [])
     /\ (onFileRemoved options = true -> filesRemoved (trace r) = [file o]))
  /\ ((forall o, In o (files w) -> id o <> fileId) ->
      r = mkRun (Normal tt) w []).
Proof.
  cbv zeta. split.
  - intros Hex.
    destruct (first_split (fun f => id f =? fileId) (files w))
      as [pre [o [post [Hw [Ho Hpre]]]]].
    { destruct Hex as [o [Hin Ho]]. exists o. split; [assumption |].
      now apply Z.eqb_eq. }
    apply Z.eqb_eq in Ho.
    assert (Hpre' : forall y, In y pre -> id y <> fileId)
      by (intros y Hy; apply Z.eqb_neq; now apply Hpre).
    exists pre, o, post.
    rewrite (removeFile_found options fileId w pre o post Hw Ho Hpre').
    cbn [completion final trace files setFiles uploading].
    repeat split; try assumption.
    + rewrite Hw, !length_app. simpl. lia.
    + intros ->. reflexivity.
  - apply removeFile_absent.
Qed.

Lemma removeFile_by_identifier_witness :
  let options := defaults None in
  let w := session options counter [AddFiles [fileA; fileB; fileC]] initial in
  ((exists o, In o (files w) /\ id o = 1)
   /\ S (length (files (final (removeFile options 1 w)))) = length (files w))
  /\ ((forall o, In o (files w) -> id o <> 7)
      /\ removeFile options 7 w = mkRun (Normal tt) w []).
Proof.
  cbv zeta.
  assert (Hex : exists o,
             In o (files (session (defaults None) counter
                            [AddFiles [fileA; fileB; fileC]] initial))
             /\ id o = 1).
  { eexists. split; [right; left; reflexivity | reflexivity]. }
  assert (Hno : forall o,
             In o (files (session (defaults None) counter
                            [AddFiles [fileA; fileB; fileC]] initial))
             -> id o <> 7).
  { intros o [<- | [<- | [<- | []]]]; discriminate. }
  split; split; try assumption.
  - destruct (proj1 (removeFile_by_identifier (defaults None) 1 _) Hex)
      as [pre [o [post [_ [_ [_ [_ [_ [Hlen _]]]]]]]]].
    exact Hlen.
  - exact (proj2 (removeFile_by_identifier (defaults None) 7 _) Hno).
Defined.

(** C7: [clear()] leaves the tracked list empty in every state of the
    widget, also while an upload is in progress ([uploading] is [true]),
    and calls no hook: in particular no file-removed notification. *)
Theorem clear_empties (w : World) :
  completion (clear w) = Normal tt
  /\ files (final (clear w)) = []
  /\ uploading (final (clear w)) = uploading w
  /\ trace (clear w) = [].
Proof.
  unfold clear, modify, setFiles. cbn [completion final trace files uploading].
  repeat split.
Qed.

(** [clear()] while an upload that never settles is in progress. *)
Example clear_while_uploading :
  let options := defaults (Some stalls) in
  let w := session options counter
             [AddFiles [fileA; fileB]; StartUpload] initial in
  uploading w = true
  /\ length (files w) = 2%nat
  /\ files (final (clear w)) = []
  /\ trace (clear w) = [].
Proof. cbv zeta. repeat split; reflexivity. Qed.

(** C8: [startUpload] with no upload function configured, or while the
    widget is uploading, returns at once: the state (the tracked list
    and every entry in it) is unchanged and no hook is called. *)
Theorem startUpload_noop (options : Options) (w : World) :
  onUpload options = None \/ uploading w = true ->
  startUpload options w = mkRun (Normal tt) w [].
Proof.
  intros Hguard. unfold startUpload. run.
  destruct (onUpload options) as [fn |] eqn:Hfn.
  - destruct Hguard as [Hnone | Hbusy]; [discriminate Hnone |].
    rewrite Hbusy. reflexivity.
  - reflexivity.
Qed.

Lemma startUpload_noop_witness :
  let w := session (defaults (Some stalls)) counter
             [AddFiles [fileA; fileB]; StartUpload] initial in
  uploading w = true
  /\ startUpload (defaults (Some stalls)) w = mkRun (Normal tt) w [].
Proof.
  cbv zeta. split.
  - reflexivity.
  - apply (startUpload_noop (defaults (Some stalls))). right. reflexivity.
Defined.

(** C9 (as amended): the progress callback stores the value it is passed
    in the entry and, if the upload-progress hook is configured, calls it
    with the file of the entry and this value; one invocation of the
    upload function leaves the last value it passed in the entry; the
    stored progress of every tracked entry is between 0 and 100 provided
    every value the upload function passes is. *)
Theorem progress_follows_reports (options : Options) (clock : nat -> Id) :
  (forall (w : World) (done : list FileObj) (o : FileObj)
          (rest : list FileObj) (p : Q),
      files w = done ++ o :: rest ->
      let r := progressCallback options (length done) o p w in
      completion r = Normal tt
      /\ files (final r) = done ++ setProgress p o :: rest
      /\ progress (setProgress p o) = p
      /\ trace r
         = (if onUploadProgress options
            then [UploadProgress (file o) p] else []))
  /\ (forall (fn : UploadFn) (w : World) (done : list FileObj) (o : FileObj)
             (rest : list FileObj),
        files w = done ++ o :: rest ->
        let r := uploadFile options fn (length done) o w in
        let ps := reports (fn (calls w) (file o)) in
        trace r = Upload (file o) :: progressEvents options (file o) ps
        /\ exists o',
             files (final r) = done ++ o' :: rest
             /\ progress o' = last ps (progress o))
  /\ ((forall fn k f p,
         onUpload options = Some fn ->
         In p (reports (fn k f)) -> percentage p) ->
      forall cs o,
        In o (files (session options clock cs initial)) ->
        percentage (progress o)).
Proof.
  refine (conj _ (conj _ _)).
  - intros w done o rest p Hw. cbv zeta.
    rewrite (progressCallback_run options done o o rest p w Hw).
    unfold progressEvents. cbn [completion final trace files setFiles].
    now destruct (onUploadProgress options).
  - intros fn w done o rest Hw. cbv zeta.
    rewrite (uploadFile_run options fn done o rest w Hw). cbv zeta.
    destruct (settles (fn (calls w) (file o)));
      cbn [trace final files]; (split; [reflexivity |]);
      eexists; (split; [reflexivity |]);
      cbn [setUploaded progress]; apply afterReports_last.
  - intros Hfn cs o Ho.
    pose proof (session_percentage options clock cs Hfn initial
                  (Forall_nil _)) as H.
    rewrite Forall_forall in H. now apply H.
Qed.

Lemma progress_follows_reports_witness :
  let options := defaults (Some flaky) in
  (forall fn k f p,
      onUpload options = Some fn -> In p (reports (fn k f)) -> percentage p)
  /\ (forall o,
        In o (files (session options counter
                       [AddFiles [fileA; fileB]; StartUpload] initial)) ->
        percentage (progress o)).
Proof.
  cbv zeta.
  assert (Hfn : forall fn k f p,
             onUpload (defaults (Some flaky)) = Some fn ->
             In p (reports (fn k f)) -> percentage p).
  { intros fn k f p Hon Hp. injection Hon as <-. unfold flaky in Hp.
    destruct ((name f =? "b.jpg")%string && (k <? 2)%nat); simpl in Hp.
    - destruct Hp as [<- | []]. split; discriminate.
    - destruct Hp as [<- | [<- | []]]; split; discriminate. }
  split; [exact Hfn |].
  exact (proj2 (proj2 (progress_follows_reports (defaults (Some flaky)) counter))
           Hfn [AddFiles [fileA; fileB]; StartUpload]).
Defined.

(** C9 (as stated) fails: the callback stores whatever it is passed, so
    an upload function that reports 150 leaves 150 in the entry. *)
Lemma progress_exceeds_100 :
  let options := defaults (Some overshoots) in
  let w := session options counter [AddFiles [fileA]; StartUpload] initial in
  exists o, In o (files w) /\ progress o = 150%Q /\ ~ percentage (progress o).
Proof.
  cbv zeta. eexists. split; [left; reflexivity |].
  split; [reflexivity |].
  intros [_ H]. apply H. reflexivity.
Qed.

(** C10: a file whose type is not accepted and that is also too large
    gets one error report, the invalid-type one, and not the size one:
    [validateFile] checks the type first and returns at the first
    violation, so no file gets more than one report; the reports of an
    intake are those of its files, in order, followed by the capacity
    report of the batch if there is one. *)
Theorem validateFile_type_first (options : Options) (clock : nat -> Id)
  (f : File) (w : World) :
  ~ In (type f) (acceptedTypes options) ->
  size f > maxFileSize options ->
  validateFile options f w
  = mkRun (Normal false) w [report options (invalidTypeMessage f)]
  /\ invalidTypeMessage f <> tooLargeMessage options f
  /\ (forall g w', (length (trace (validateFile options g w')) <= 1)%nat)
  /\ (forall before after,
        errors (trace (addFiles options clock (before ++ f :: after) w))
        = errors (flat_map (rejection options) before)
            ++ [invalidTypeMessage f]
            ++ errors (flat_map (rejection options) after)
            ++ (if overCapacity options w
                     (filter (accepts options) (before ++ f :: after))
                then [maxFilesMessage options] else [])).
Proof.
  intros Htype Hsize.
  assert (Hrej : rejection options f = [report options (invalidTypeMessage f)]).
  { unfold rejection.
    destruct (Js.includes (acceptedTypes options) (type f)) eqn:E;
      [apply includes_In in E; contradiction | reflexivity]. }
  assert (Hacc : accepts options f = false).
  { unfold accepts.
    destruct (Js.includes (acceptedTypes options) (type f)) eqn:E;
      [apply includes_In in E; contradiction | reflexivity]. }
  repeat split.
  - rewrite validateFile_run, Hrej, Hacc. reflexivity.
  - apply messages_differ.
  - intros g w'. rewrite validateFile_run. apply rejection_length.
  - intros before after. rewrite addFiles_run. cbn [trace].
    rewrite flat_map_app. cbn [flat_map]. rewrite Hrej.
    rewrite !errors_app, errors_report.
    rewrite <- !app_assoc. cbn [app]. do 3 f_equal.
    destruct (overCapacity options w _); rewrite ?errors_report;
      destruct (onFilesAdded options && _); reflexivity.
Qed.

Lemma validateFile_type_first_witness :
  let options := defaults None in
  (~ In (type notes) (acceptedTypes options)
   /\ size notes > maxFileSize options)
  /\ validateFile options notes initial
     = mkRun (Normal false) initial [Error "notes.txt: Invalid file type"].
Proof.
  cbv zeta.
  assert (Htype : ~ In (type notes) (acceptedTypes (defaults None))).
  { simpl. intros [H | [H | [H | [H | [H | []]]]]]; discriminate H. }
  assert (Hsize : size notes > maxFileSize (defaults None)) by reflexivity.
  split; [now split |].
  exact (proj1 (validateFile_type_first (defaults None) counter notes initial
                  Htype Hsize)).
Defined.

(** * Further properties of the controller *)

(** ** What a run of [startUpload] leaves alone *)

Lemma startUpload_ticks (options : Options) (w : World) :
  ticks (final (startUpload options w)) = ticks w.
Proof.
  destruct (onUpload options) as [fn |] eqn:Hfn;
    [| now rewrite startUpload_guard by (now left)].
  destruct (uploading w) eqn:Hw;
    [now rewrite startUpload_guard by (now right) |].
  rewrite (startUpload_run options fn w Hfn Hw). cbv zeta.
  now destruct (outcome (uploadRest options fn (calls w) (files w)))
    as [? | [? |] | |].
Qed.

Lemma startUpload_shape (options : Options) (w : World) :
  map file (files (final (startUpload options w))) = map file (files w)
  /\ map id (files (final (startUpload options w))) = map id (files w).
Proof.
  destruct (startUpload_cases options w) as [H | [fn [_ [_ H]]]]; rewrite H.
  - now split.
  - apply uploadRest_shape.
Qed.






Lemma uploadRest_uploaded (options : Options) (fn : UploadFn) (k : nat)
  (rest : list FileObj) :
  Forall (fun o => uploaded o = true) rest ->
  uploadRest options fn k rest = mkRest (Normal tt) rest k [].
Proof.
  induction 1 as [| o rest Ho _ IH]; [reflexivity |].
  simpl. now rewrite Ho, IH.
Qed.

(** X3: when every tracked entry is already marked uploaded (in
    particular when nothing is tracked), [startUpload] on an idle widget
    does not invoke the upload function and changes nothing, but it
    still calls the upload-complete hook, with all tracked files. *)
Theorem startUpload_nothing_pending (options : Options) (fn : UploadFn)
  (w : World) :
  onUpload options = Some fn ->
  uploading w = false ->
  Forall (fun o => uploaded o = true) (files w) ->
  startUpload options w
  = mkRun (Normal tt) w
      (if onUploadComplete options
       then [UploadComplete (getFiles w)] else []).
Proof.
  intros Hfn Hidle Hall.
  rewrite (startUpload_run options fn w Hfn Hidle). cbv zeta.
  rewrite (uploadRest_uploaded options fn (calls w) (files w) Hall).
  cbn [outcome emitted entries app]. unfold settled, getFiles.
  cbn [entries invoked]. rewrite <- Hidle. now destruct w.
Qed.

Lemma startUpload_nothing_pending_witness :
  let options := defaults (Some steady) in
  let w := final (startUpload options
                    (session options counter [AddFiles [fileA; fileB]]
                       initial)) in
  (onUpload options = Some steady
   /\ uploading w = false
   /\ Forall (fun o => uploaded o = true) (files w))
  /\ startUpload options w
     = mkRun (Normal tt) w [UploadComplete [fileA; fileB]].
Proof.
  cbv zeta.
  set (w := final (startUpload (defaults (Some steady))
                     (session (defaults (Some steady)) counter
                        [AddFiles [fileA; fileB]] initial))).
  assert (Hall : Forall (fun o => uploaded o = true) (files w))
    by (repeat constructor).
  split; [repeat split; exact Hall |].
  exact (startUpload_nothing_pending (defaults (Some steady)) steady w
           eq_refl eq_refl Hall).
Defined.

(** ** Runs in which nothing happens in between

    When nothing interrupts the invocations of the upload function, a
    run with interruptions is the run of the controller as defined
    first, whatever the number of iterations allowed beyond the length
    of the tracked list. *)

Section Undisturbed.

Variable options : Options.
Variable clock : nat -> Id.
Variable meanwhile : Meanwhile.
Hypothesis Hnothing : undisturbed meanwhile.

Lemma reporting_undisturbed (done : list FileObj) (f : File)
  (rest : list FileObj) (earlier : list Closure) :
  forall (ps : list Q) (k j : nat) (o : FileObj) (w : World),
    files w = done ++ o :: rest ->
    Async.reporting options clock meanwhile k j ps
      {| target := f; place := Some (length done) |} earlier w
    = mkRun (Normal ({| target := f; place := Some (length done) |}, earlier))
        (setFiles (done ++ afterReports ps o :: rest) w)
        (progressEvents options f ps).
Proof.
  induction ps as [| p ps IH]; intros k j o w Hw;
    cbn [Async.reporting]; rewrite bind_eq, (Hnothing k j);
    cbn [Async.interrupts]; prim; cbn [fst snd].
  - unfold progressEvents. cbn [afterReports fold_left].
    rewrite <- Hw, setFiles_files.
    now destruct (onUploadProgress options).
  - rewrite bind_eq.
    change (Async.progressCallback options
              {| target := f; place := Some (length done) |} p)
      with (progressCallback options (length done)
              {| file := f; id := 0; uploaded := false; progress := 0%Q |} p).
    rewrite (progressCallback_run options done _ o rest p w Hw).
    rewrite (IH k (S j) (setProgress p o)) by reflexivity.
    cbn [file app].
    now rewrite (progressEvents_cons options f p ps).
Qed.

Lemma uploadFile_undisturbed (fn : UploadFn) (done : list FileObj)
  (o : FileObj) (rest : list FileObj) (earlier : list Closure) (w : World) :
  files w = done ++ o :: rest ->
  Async.uploadFile options clock meanwhile fn (length done) o earlier w
  = match uploadFile options fn (length done) o w with
    | mkRun (Normal _) w1 t1 =>
        mkRun (Normal ({| target := file o; place := Some (length done) |}
                         :: earlier)) w1 t1
    | mkRun (Throw e) w1 t1 => mkRun (Throw e) w1 t1
    | mkRun Suspended w1 t1 => mkRun Suspended w1 t1
    | mkRun OutOfFuel w1 t1 => mkRun OutOfFuel w1 t1
    end.
Proof.
  intros Hw. rewrite (uploadFile_run options fn done o rest w Hw). cbv zeta.
  unfold Async.uploadFile, Async.awaitUpload. prim. run. cbn [target].
  rewrite (reporting_undisturbed done (file o) rest earlier _ _ _ o)
    by exact Hw.
  destruct (settles (fn (calls w) (file o))); prim; cbn [fst snd place].
  - run. unfold mutate. prim. simpl. rewrite updateAt_app.
    now rewrite !app_nil_r.
  - now rewrite !app_nil_r.
  - now rewrite !app_nil_r.
Qed.

Lemma uploadLoop_undisturbed (fn : UploadFn) (rest : list FileObj) :
  forall (fuel : nat) (done : list FileObj) (earlier : list Closure)
         (w : World),
    files w = done ++ rest ->
    (length rest < fuel)%nat ->
    Async.uploadLoop options clock meanwhile fn fuel (length done) earlier w
    = uploadLoop options fn fuel (length done) w.
Proof.
  induction rest as [| o rest IH]; intros fuel done earlier w Hw Hfuel;
    (destruct fuel as [| fuel]; [simpl in Hfuel; lia |]);
    cbn [Async.uploadLoop uploadLoop]; rewrite !bind_eq; prim; rewrite Hw.
  - now rewrite nth_error_end.
  - rewrite nth_error_middle. rewrite !bind_eq. simpl in Hfuel.
    destruct (uploaded o) eqn:Hup.
    + prim. rewrite (length_snoc done o).
      rewrite (IH fuel (done ++ [o]) earlier w)
        by (rewrite <- ?app_assoc; simpl; (exact Hw || lia)).
      reflexivity.
    + rewrite (uploadFile_undisturbed fn done o rest earlier w Hw).
      rewrite (uploadFile_run options fn done o rest w Hw). cbv zeta.
      destruct (settles (fn (calls w) (file o))) as [| e |].
      * rewrite (length_snoc done
                   (setUploaded (afterReports (reports (fn (calls w) (file o))) o))).
        rewrite IH by (cbn [files]; rewrite <- ?app_assoc; simpl;
                       (reflexivity || lia)).
        reflexivity.
      * reflexivity.
      * reflexivity.
Qed.

Lemma startUpload_undisturbed (fuel : nat) (w : World) :
  (length (files w) < fuel)%nat ->
  Async.startUpload options clock meanwhile fuel w = startUpload options w.
Proof.
  intros Hfuel. unfold Async.startUpload, startUpload. rewrite !bind_eq. prim.
  destruct (onUpload options) as [fn |]; [| reflexivity].
  destruct (uploading w); [reflexivity |].
  rewrite !bind_eq. prim.
  pose proof (uploadLoop_undisturbed fn (files w) fuel [] []
                (setUploading true w) eq_refl Hfuel) as E.
  cbn [length] in E. rewrite E.
  pose proof (uploadLoop_run options fn (files w) fuel []
                (setUploading true w) eq_refl Hfuel) as E1.
  pose proof (uploadLoop_run options fn (files w) (S (length (files w))) []
                (setUploading true w) eq_refl (Nat.lt_succ_diag_r _)) as E2.
  cbn [length] in E1, E2. rewrite E1, E2. reflexivity.
Qed.

End Undisturbed.

(** ** A run that never resumes *)

Lemma uploads_rejections (options : Options) (l : list File) :
  uploads (flat_map (rejection options) l) = []
  /\ completions (flat_map (rejection options) l) = [].
Proof.
  induction l as [| f l [IH1 IH2]]; [now split |].
  simpl. rewrite uploads_app, completions_app, IH1, IH2, !app_nil_r.
  unfold rejection, report.
  destruct (negb _); [now destruct (onError options) |].
  destruct (_ >? _); [now destruct (onError options) | now split].
Qed.

Lemma addFiles_no_upload (options : Options) (clock : nat -> Id)
  (batch : list File) (w : World) :
  uploads (trace (addFiles options clock batch w)) = []
  /\ completions (trace (addFiles options clock batch w)) = []
  /\ uploading (final (addFiles options clock batch w)) = uploading w
  /\ calls (final (addFiles options clock batch w)) = calls w.
Proof.
  rewrite addFiles_run. cbn [trace final uploading calls].
  destruct (uploads_rejections options batch) as [Hu Hc].
  rewrite !uploads_app, !completions_app, Hu, Hc. unfold report.
  destruct (overCapacity options w _); destruct (onError options);
    destruct (onFilesAdded options && _); now repeat split.
Qed.

Lemma call_busy (options : Options) (clock : nat -> Id) (c : Call)
  (w : World) :
  uploading w = true ->
  uploading (final (call options clock c w)) = true
  /\ calls (final (call options clock c w)) = calls w
  /\ uploads (trace (call options clock c w)) = []
  /\ completions (trace (call options clock c w)) = [].
Proof.
  intros Hw. destruct c as [batch | fileId | |]; cbn [call].
  - destruct (addFiles_no_upload options clock batch w) as [H1 [H2 [H3 H4]]].
    rewrite H3. now repeat split.
  - destruct (removeFile_cases options fileId w)
      as [H | [pre [o [post [_ H]]]]]; rewrite H;
      cbn [final trace setFiles uploading calls];
      try destruct (onFileRemoved options); now repeat split.
  - rewrite startUpload_guard by (now right). now repeat split.
  - unfold clear. prim. now repeat split.
Qed.

(** X4: while [uploading] is [true], no sequence of calls of
    [addFiles], [removeFile], [startUpload] and [clear] resets it,
    invokes the upload function or notifies a completion. *)
Theorem busy_widget_stays_busy (options : Options) (clock : nat -> Id)
  (cs : list Call) (w : World) :
  uploading w = true ->
  uploading (session options clock cs w) = true
  /\ calls (session options clock cs w) = calls w
  /\ uploads (sessionTrace options clock cs w) = []
  /\ completions (sessionTrace options clock cs w) = [].
Proof.
  revert w. induction cs as [| c cs IH]; intros w Hw; [now repeat split |].
  destruct (call_busy options clock c w Hw) as [H1 [H2 [H3 H4]]].
  destruct (IH _ H1) as [I1 [I2 [I3 I4]]].
  cbn [session sessionTrace].
  rewrite uploads_app, completions_app, H3, H4, I3, I4, I2.
  now repeat split.
Qed.

Lemma busy_widget_stays_busy_witness :
  let options := defaults (Some stalls) in
  let w := session options counter [AddFiles [fileA]; StartUpload] initial in
  uploading w = true
  /\ uploading (session options counter
                  [Clear; AddFiles [fileB]; StartUpload] w) = true
  /\ uploads (sessionTrace options counter
                [Clear; AddFiles [fileB]; StartUpload] w) = [].
Proof.
  cbv zeta.
  set (w := session (defaults (Some stalls)) counter
              [AddFiles [fileA]; StartUpload] initial).
  assert (Hw : uploading w = true) by reflexivity.
  destruct (busy_widget_stays_busy (defaults (Some stalls)) counter
              [Clear; AddFiles [fileB]; StartUpload] w Hw)
    as [H1 [_ [H3 _]]].
  split; [exact Hw | split; [exact H1 | exact H3]].
Defined.

Lemma uploadRest_pending (options : Options) (fn : UploadFn) (k : nat)
  (pre : list FileObj) (o : FileObj) (post : list FileObj) :
  uploaded o = false ->
  resolvesAll fn k pre ->
  settles (fn (k + length (pending pre))%nat (file o)) = Pending ->
  let r1 := uploadRest options fn k pre in
  let b := fn (k + length (pending pre))%nat (file o) in
  uploadRest options fn k (pre ++ o :: post)
  = mkRest Suspended
      (entries r1 ++ afterReports (reports b) o :: post)
      (S (k + length (pending pre)))
      (emitted r1
         ++ Upload (file o) :: progressEvents options (file o) (reports b)).
Proof.
  intros Ho Hpre He. cbv zeta.
  destruct (uploadRest_resolved options fn pre k Hpre) as [H1 [_ [_ H4]]].
  rewrite (uploadRest_app options fn pre (o :: post) k H1). cbv zeta.
  rewrite H4. simpl. rewrite Ho, He. reflexivity.
Qed.

(** X5: there is no timeout: when the promise of the upload function
    never settles for an entry, and nothing else happens while the run
    waits for the upload function (no method of the widget is called,
    no progress callback of an earlier invocation), the run stops there
    for good; the widget stays in the uploading state, the entries
    before are marked uploaded, and neither an error nor a completion
    is reported. *)
Theorem startUpload_stalls (options : Options) (clock : nat -> Id)
  (meanwhile : Meanwhile) (fuel : nat) (fn : UploadFn) (w : World)
  (pre : list FileObj) (o : FileObj) (post : list FileObj) :
  undisturbed meanwhile ->
  (length (files w) < fuel)%nat ->
  onUpload options = Some fn ->
  uploading w = false ->
  files w = pre ++ o :: post ->
  uploaded o = false ->
  resolvesAll fn (calls w) pre ->
  settles (fn (calls w + length (pending pre))%nat (file o)) = Pending ->
  let r := Async.startUpload options clock meanwhile fuel w in
  completion r = Suspended
  /\ uploading (final r) = true
  /\ uploads (trace r) = map file (pending pre) ++ [file o]
  /\ errors (trace r) = []
  /\ completions (trace r) = []
  /\ exists pre' o',
       files (final r) = pre' ++ o' :: post
       /\ map file pre' = map file pre
       /\ Forall (fun x => uploaded x = true) pre'
       /\ file o' = file o /\ uploaded o' = false.
Proof.
  intros Hnothing Hfuel Hfn Hidle Hfiles Ho Hpre He. cbv zeta.
  rewrite (startUpload_undisturbed options clock meanwhile Hnothing fuel w
             Hfuel).
  rewrite (startUpload_run options fn w Hfn Hidle). cbv zeta.
  rewrite Hfiles.
  rewrite (uploadRest_pending options fn (calls w) pre o post Ho Hpre He).
  cbv zeta. cbn [outcome entries emitted invoked completion final trace
                   files uploading settled].
  set (b := fn (calls w + length (pending pre))%nat (file o)).
  destruct (uploadRest_resolved options fn pre (calls w) Hpre)
    as [_ [Hup [Hdone _]]].
  destruct (uploadRest_quiet options fn pre (calls w)) as [Herr [Hcom _]].
  destruct (uploadRest_shape options fn pre (calls w)) as [Hfile _].
  destruct (progressEvents_quiet options (file o) (reports b))
    as [Pu [Pe [Pc _]]].
  destruct (afterReports_fields (reports b) o) as [Af [_ Au]].
  refine (conj eq_refl (conj eq_refl (conj _ (conj _ (conj _ _))))).
  - rewrite uploads_app, Hup. cbn [uploads]. now rewrite Pu.
  - rewrite errors_app, Herr. cbn [errors app]. exact Pe.
  - rewrite completions_app, Hcom. cbn [completions app]. exact Pc.
  - exists (entries (uploadRest options fn (calls w) pre)),
      (afterReports (reports b) o).
    rewrite Au. now repeat split.
Qed.

Lemma startUpload_stalls_witness :
  let options := defaults (Some stalls) in
  let w := session options counter [AddFiles [fileA; fileB]] initial in
  let a := {| file := fileA; id := 0; uploaded := false; progress := 0%Q |} in
  let b := {| file := fileB; id := 1; uploaded := false; progress := 0%Q |} in
  (undisturbed nothing
   /\ (length (files w) < 3)%nat
   /\ onUpload options = Some stalls
   /\ uploading w = false
   /\ files w = [] ++ a :: [b]
   /\ uploaded a = false
   /\ resolvesAll stalls (calls w) []
   /\ settles (stalls (calls w + length (pending []))%nat (file a)) = Pending)
  /\ uploading (final (Async.startUpload options counter nothing 3 w)) = true
  /\ uploads (trace (Async.startUpload options counter nothing 3 w))
     = [fileA].
Proof.
  cbv zeta.
  set (a := {| file := fileA; id := 0; uploaded := false; progress := 0%Q |}).
  set (b := {| file := fileB; id := 1; uploaded := false; progress := 0%Q |}).
  set (w := session (defaults (Some stalls)) counter
              [AddFiles [fileA; fileB]] initial).
  assert (Hall : resolvesAll stalls (calls w) [])
    by (intros [| n] x H; discriminate H).
  assert (Hnothing : undisturbed nothing) by (intros k j; reflexivity).
  assert (Hfuel : (length (files w) < 3)%nat) by (simpl; lia).
  split; [repeat split; assumption |].
  destruct (startUpload_stalls (defaults (Some stalls)) counter nothing 3
              stalls w [] a [b] Hnothing Hfuel
              eq_refl eq_refl eq_refl eq_refl Hall eq_refl)
    as [_ [Hbusy [Hu _]]].
  split; [exact Hbusy | exact Hu].
Defined.

(** ** The query methods *)

Lemma filter_uploaded_all (l : list FileObj) :
  Forall (fun o => uploaded o = true) l -> filter uploaded l = l.
Proof.
  induction 1 as [| o l Ho _ IH]; [reflexivity |].
  simpl. now rewrite Ho, IH.
Qed.

(** X6: after a run in which the upload function resolved on every
    entry it was invoked on, and during which nothing else happened
    while the run waited for the upload function (no method of the
    widget was called, no progress callback of an earlier invocation),
    [getUploadedFiles()] returns the same list as [getFiles()]: every
    tracked file, in tracked order. *)
Theorem getUploadedFiles_after_success (options : Options)
  (clock : nat -> Id) (meanwhile : Meanwhile) (fuel : nat) (fn : UploadFn)
  (w : World) :
  undisturbed meanwhile ->
  (length (files w) < fuel)%nat ->
  onUpload options = Some fn ->
  uploading w = false ->
  resolvesAll fn (calls w) (files w) ->
  let r := Async.startUpload options clock meanwhile fuel w in
  getUploadedFiles (final r) = getFiles (final r)
  /\ getFiles (final r) = getFiles w.
Proof.
  intros Hnothing Hfuel Hfn Hidle Hall. cbv zeta.
  rewrite (startUpload_undisturbed options clock meanwhile Hnothing fuel w
             Hfuel).
  rewrite (startUpload_run options fn w Hfn Hidle). cbv zeta.
  destruct (uploadRest_resolved options fn (files w) (calls w) Hall)
    as [H1 [_ [H3 _]]].
  rewrite H1. unfold getUploadedFiles, getFiles. cbn [final files settled].
  rewrite (filter_uploaded_all _ H3). split; [reflexivity |].
  apply uploadRest_shape.
Qed.

Lemma getUploadedFiles_after_success_witness :
  let options := defaults (Some steady) in
  let w := session options counter [AddFiles [fileA; fileB]] initial in
  (undisturbed nothing
   /\ (length (files w) < 3)%nat
   /\ onUpload options = Some steady
   /\ uploading w = false
   /\ resolvesAll steady (calls w) (files w))
  /\ getUploadedFiles (final (Async.startUpload options counter nothing 3 w))
     = [fileA; fileB].
Proof.
  cbv zeta.
  set (w := session (defaults (Some steady)) counter
              [AddFiles [fileA; fileB]] initial).
  assert (Hall : resolvesAll steady (calls w) (files w))
    by (intros n o _; reflexivity).
  assert (Hnothing : undisturbed nothing) by (intros k j; reflexivity).
  assert (Hfuel : (length (files w) < 3)%nat) by (simpl; lia).
  split; [repeat split; assumption |].
  destruct (getUploadedFiles_after_success (defaults (Some steady)) counter
              nothing 3 steady w Hnothing Hfuel eq_refl eq_refl Hall)
    as [H1 H2].
  rewrite H1, H2. reflexivity.
Defined.

(** X7: after a run that failed on the entry [o], whatever the reason
    of the failure, and during which nothing else happened while the
    run waited for the upload function (no method of the widget was
    called, no progress callback of an earlier invocation),
    [getUploadedFiles()] returns the files of all entries before [o],
    followed by the files of the entries after [o] that were uploaded
    before the run. *)
Theorem getUploadedFiles_after_failure (options : Options)
  (clock : nat -> Id) (meanwhile : Meanwhile) (fuel : nat) (fn : UploadFn)
  (w : World) (pre : list FileObj) (o : FileObj) (post : list FileObj)
  (e : Thrown) :
  undisturbed meanwhile ->
  (length (files w) < fuel)%nat ->
  onUpload options = Some fn ->
  uploading w = false ->
  files w = pre ++ o :: post ->
  uploaded o = false ->
  resolvesAll fn (calls w) pre ->
  settles (fn (calls w + length (pending pre))%nat (file o)) = Rejected e ->
  getUploadedFiles (final (Async.startUpload options clock meanwhile fuel w))
  = map file pre ++ map file (filter uploaded post).
Proof.
  intros Hnothing Hfuel Hfn Hidle Hfiles Ho Hpre He.
  rewrite (startUpload_undisturbed options clock meanwhile Hnothing fuel w
             Hfuel).
  rewrite (startUpload_run options fn w Hfn Hidle). cbv zeta.
  rewrite Hfiles.
  rewrite (uploadRest_rejected options fn (calls w) pre o post e Ho Hpre He).
  cbv zeta. unfold getUploadedFiles. cbn [outcome].
  destruct e as [e |]; cbn [final files settled entries].
  all: destruct (uploadRest_resolved options fn pre (calls w) Hpre)
    as [_ [_ [Hdone _]]].
  all: destruct (afterReports_fields
                   (reports (fn (calls w + length (pending pre))%nat
                               (file o))) o)
    as [_ [_ Au]].
  all: rewrite filter_app, (filter_uploaded_all _ Hdone); cbn [filter].
  all: rewrite Au, Ho, map_app.
  all: now rewrite (proj1 (uploadRest_shape options fn pre (calls w))).
Qed.

Lemma getUploadedFiles_after_failure_witness :
  let options := defaults (Some flaky) in
  let w := session options counter [AddFiles [fileA; fileB; fileC]] initial in
  let a := {| file := fileA; id := 0; uploaded := false; progress := 0%Q |} in
  let b := {| file := fileB; id := 1; uploaded := false; progress := 0%Q |} in
  let c := {| file := fileC; id := 2; uploaded := false; progress := 0%Q |} in
  (undisturbed nothing
   /\ (length (files w) < 4)%nat
   /\ onUpload options = Some flaky
   /\ uploading w = false
   /\ files w = [a] ++ b :: [c]
   /\ uploaded b = false
   /\ resolvesAll flaky (calls w) [a]
   /\ settles (flaky (calls w + length (pending [a]))%nat (file b))
      = Rejected (Legible "network"))
  /\ getUploadedFiles (final (Async.startUpload options counter nothing 4 w))
     = [fileA].
Proof.
  cbv zeta.
  set (a := {| file := fileA; id := 0; uploaded := false; progress := 0%Q |}).
  set (b := {| file := fileB; id := 1; uploaded := false; progress := 0%Q |}).
  set (c := {| file := fileC; id := 2; uploaded := false; progress := 0%Q |}).
  set (w := session (defaults (Some flaky)) counter
              [AddFiles [fileA; fileB; fileC]] initial).
  assert (Hall : resolvesAll flaky (calls w) [a]).
  { intros [| n] x H; simpl in H.
    - injection H as <-. reflexivity.
    - destruct n; discriminate H. }
  assert (Hnothing : undisturbed nothing) by (intros k j; reflexivity).
  assert (Hfuel : (length (files w) < 4)%nat) by (simpl; lia).
  split; [repeat split; assumption |].
  exact (getUploadedFiles_after_failure (defaults (Some flaky)) counter
           nothing 4 flaky w [a] b [c] (Legible "network") Hnothing Hfuel
           eq_refl eq_refl eq_refl eq_refl Hall eq_refl).
Defined.

(** An entry removed while it is uploaded: a.jpg is removed during the
    first invocation of the upload function; the loop goes on at index
    1 of the shortened list, which is c.jpg, so that b.jpg is never
    handed to the upload function and the completion is notified with
    b.jpg not uploaded. *)
Example remove_during_upload :
  let options := defaults (Some steady) in
  let w := session options counter [AddFiles [fileA; fileB; fileC]] initial in
  let r := Async.startUpload options counter removesFirst 4 w in
  completion r = Normal tt
  /\ uploads (trace r) = [fileA; fileC]
  /\ filesRemoved (trace r) = [fileA]
  /\ completions (trace r) = [[fileB; fileC]]
  /\ getFiles (final r) = [fileB; fileC]
  /\ getUploadedFiles (final r) = [fileC].
Proof. cbv zeta. repeat split; reflexivity. Qed.

(** ** Intake at the edges *)

(** X8: with a maximum that is not negative, the number of tracked
    entries does not exceed it after any sequence of calls of
    [addFiles], [removeFile], [startUpload] and [clear] on a new
    widget. *)
Theorem session_count_within_maximum (options : Options) (clock : nat -> Id)
  (cs : list Call) :
  0 <= maxFiles options ->
  Z.of_nat (length (getFiles (session options clock cs initial)))
  <= maxFiles options.
Proof.
  intros Hmax. unfold getFiles. rewrite length_map.
  apply session_within_capacity; [assumption | simpl; lia].
Qed.

Lemma session_count_within_maximum_witness :
  let options := withMaxFiles 2 (defaults (Some steady)) in
  0 <= maxFiles options
  /\ Z.of_nat (length (getFiles
                         (session options counter
                            [AddFiles [fileA; fileB; fileC]; RemoveFile 0;
                             StartUpload; AddFiles [fileC; fileA]] initial)))
     <= maxFiles options.
Proof.
  cbv zeta.
  assert (Hmax : 0 <= maxFiles (withMaxFiles 2 (defaults (Some steady))))
    by (simpl; lia).
  split; [exact Hmax |].
  exact (session_count_within_maximum
           (withMaxFiles 2 (defaults (Some steady))) counter _ Hmax).
Defined.

Lemma world_eta (w : World) :
  {| files := files w ++ []; uploading := uploading w;
     ticks := (ticks w + 0)%nat; calls := calls w |} = w.
Proof. rewrite app_nil_r, Nat.add_0_r. now destruct w. Qed.

Lemma filter_none {A : Type} (p : A -> bool) (l : list A) :
  (forall x, In x l -> p x = false) -> filter p l = [].
Proof.
  induction l as [| x l IH]; intros H; [reflexivity |].
  simpl. rewrite (H x) by now left.
  apply IH. intros y Hy. apply H. now right.
Qed.

(** X9: when the widget is full (as many tracked entries as the
    maximum), [addFiles] tracks nothing more and does not call the
    files-added hook, whatever the batch; the capacity error is reported
    exactly when the batch has a file that passes validation. *)
Theorem addFiles_when_full (options : Options) (clock : nat -> Id)
  (batch : list File) (w : World) :
  Z.of_nat (length (files w)) = maxFiles options ->
  let r := addFiles options clock batch w in
  final r = w
  /\ filesAdded (trace r) = []
  /\ errors (trace r)
     = errors (flat_map (rejection options) batch)
         ++ (if existsb (accepts options) batch
             then [maxFilesMessage options] else []).
Proof.
  intros Hfull. cbv zeta. rewrite addFiles_run. cbn [final trace].
  assert (Hkept : admitted options w batch = []).
  { rewrite admitted_within by lia.
    replace (maxFiles options - Z.of_nat (length (files w))) with 0 by lia.
    reflexivity. }
  rewrite Hkept. cbn [length wrap]. rewrite world_eta.
  assert (Hover : overCapacity options w (filter (accepts options) batch)
                  = existsb (accepts options) batch).
  { unfold overCapacity. rewrite Hfull. clear Hkept.
    induction batch as [| f batch IH]; simpl.
    - rewrite Z.gtb_ltb. apply Z.ltb_ge. lia.
    - destruct (accepts options f); simpl; [| exact IH].
      rewrite Z.gtb_ltb. apply Z.ltb_lt. lia. }
  rewrite Hover. rewrite andb_false_r.
  rewrite !filesAdded_app, filesAdded_rejections, !errors_app.
  refine (conj eq_refl (conj _ _)).
  - destruct (existsb (accepts options) batch);
      rewrite ?filesAdded_report; reflexivity.
  - destruct (existsb (accepts options) batch); rewrite ?errors_report;
      now rewrite ?app_nil_r.
Qed.

Lemma addFiles_when_full_witness :
  let options := withMaxFiles 2 (defaults None) in
  let w := session options counter [AddFiles [fileA; fileB]] initial in
  Z.of_nat (length (files w)) = maxFiles options
  /\ final (addFiles options counter [fileC; notes] w) = w
  /\ errors (trace (addFiles options counter [fileC; notes] w))
     = ["notes.txt: Invalid file type"; "Maximum 2 files allowed"]%string.
Proof.
  cbv zeta.
  set (w := session (withMaxFiles 2 (defaults None)) counter
              [AddFiles [fileA; fileB]] initial).
  assert (Hfull : Z.of_nat (length (files w))
                  = maxFiles (withMaxFiles 2 (defaults None)))
    by reflexivity.
  destruct (addFiles_when_full (withMaxFiles 2 (defaults None)) counter
              [fileC; notes] w Hfull) as [H1 [_ H3]].
  split; [exact Hfull | split; [exact H1 |]].
  rewrite H3. reflexivity.
Defined.

(** X10: a batch without a single valid file (the empty batch among
    them) changes nothing on a widget whose count is within the maximum:
    the only events are the rejections of its files, there is neither a
    capacity error nor a files-added notification. *)
Theorem addFiles_nothing_valid (options : Options) (clock : nat -> Id)
  (batch : list File) (w : World) :
  Z.of_nat (length (files w)) <= maxFiles options ->
  (forall f, In f batch -> accepts options f = false) ->
  addFiles options clock batch w
  = mkRun (Normal tt) w (flat_map (rejection options) batch).
Proof.
  intros Hcap Hbad. rewrite addFiles_run.
  unfold admitted. rewrite (filter_none _ _ Hbad).
  assert (Hover : overCapacity options w [] = false).
  { unfold overCapacity. simpl. rewrite Z.gtb_ltb. apply Z.ltb_ge. lia. }
  rewrite Hover. cbn [length wrap]. rewrite world_eta.
  rewrite andb_false_r. now rewrite !app_nil_r.
Qed.

Lemma addFiles_nothing_valid_witness :
  let options := defaults None in
  (Z.of_nat (length (files initial)) <= maxFiles options
   /\ (forall f, In f [poster; notes] -> accepts options f = false))
  /\ addFiles options counter [poster; notes] initial
     = mkRun (Normal tt) initial
         [Error "poster.jpg: File too large (max 10.0MB)";
          Error "notes.txt: Invalid file type"].
Proof.
  cbv zeta.
  assert (Hcap : Z.of_nat (length (files initial))
                 <= maxFiles (defaults None)) by (simpl; lia).
  assert (Hbad : forall f, In f [poster; notes] ->
                           accepts (defaults None) f = false)
    by (intros f [<- | [<- | []]]; reflexivity).
  split; [now split |].
  exact (addFiles_nothing_valid (defaults None) counter [poster; notes]
           initial Hcap Hbad).
Defined.

(** ** How intakes compose *)

Lemma filter_idem {A : Type} (p : A -> bool) (l : list A) :
  filter p (filter p l) = filter p l.
Proof.
  induction l as [| x l IH]; [reflexivity |].
  simpl. destruct (p x) eqn:E; simpl; [rewrite E, IH |]; auto.
Qed.

Lemma rejection_valid (options : Options) (l : list File) :
  flat_map (rejection options) (filter (accepts options) l) = [].
Proof.
  induction l as [| f l IH]; [reflexivity |].
  simpl. destruct (accepts options f) eqn:E; [| exact IH].
  simpl. rewrite IH, app_nil_r.
  unfold accepts in E. apply andb_true_iff in E. destruct E as [E1 E2].
  unfold rejection. rewrite E1. simpl.
  apply negb_true_iff in E2. now rewrite E2.
Qed.

(** X11: the files of a batch that fail validation have no effect beyond
    their error reports: they take no capacity and no identifier.  The
    state after the intake of a batch is the state after the intake of
    its valid files alone, and the events are the rejections followed by
    the events of that intake. *)
Theorem addFiles_ignores_invalid (options : Options) (clock : nat -> Id)
  (batch : list File) (w : World) :
  let r := addFiles options clock batch w in
  let r' := addFiles options clock (filter (accepts options) batch) w in
  final r = final r'
  /\ trace r = flat_map (rejection options) batch ++ trace r'.
Proof.
  cbv zeta. rewrite !addFiles_run. cbn [final trace].
  unfold admitted. rewrite filter_idem, rejection_valid.
  now split.
Qed.

Lemma wrap_app (clock : nat -> Id) (a b : list File) :
  forall k,
    wrap clock k (a ++ b)
    = wrap clock k a ++ wrap clock (k + length a) b.
Proof.
  induction a as [| f a IH]; intros k; simpl.
  - now rewrite Nat.add_0_r.
  - rewrite IH. now rewrite Nat.add_succ_r.
Qed.

(** X12: on a widget whose count is within the maximum, handing over a
    batch in two parts leaves the same state as handing it over at once:
    the same entries with the same identifiers, cut at the same place. *)
Theorem addFiles_split (options : Options) (clock : nat -> Id)
  (a b : list File) (w : World) :
  Z.of_nat (length (files w)) <= maxFiles options ->
  final (addFiles options clock (a ++ b) w)
  = final (addFiles options clock b (final (addFiles options clock a w))).
Proof.
  intros Hcap. rewrite !addFiles_run. cbn [final files ticks uploading calls].
  set (n := Z.to_nat (maxFiles options - Z.of_nat (length (files w)))).
  assert (Ha : admitted options w a = firstn n (filter (accepts options) a))
    by (apply admitted_within; assumption).
  assert (Hab : admitted options w (a ++ b)
                = firstn n (filter (accepts options) a)
                    ++ firstn (n - length (filter (accepts options) a))
                         (filter (accepts options) b)).
  { rewrite admitted_within by assumption.
    now rewrite filter_app, firstn_app. }
  set (w1 := {| files := files w ++ wrap clock (ticks w) (admitted options w a);
                uploading := uploading w;
                ticks := (ticks w + length (admitted options w a))%nat;
                calls := calls w |}).
  assert (Hb : admitted options w1 b
               = firstn (n - length (filter (accepts options) a))
                   (filter (accepts options) b)).
  { rewrite admitted_within.
    - unfold w1. cbn [files]. rewrite length_app, length_wrap, Ha.
      rewrite length_firstn. f_equal. unfold n. lia.
    - unfold w1. cbn [files]. rewrite length_app, length_wrap, Ha.
      rewrite length_firstn. unfold n. lia. }
  rewrite Hb, Hab. unfold w1. cbn [files ticks uploading calls].
  rewrite Ha, wrap_app, length_app, <- app_assoc, Nat.add_assoc.
  reflexivity.
Qed.

Lemma addFiles_split_witness :
  let options := withMaxFiles 2 (defaults None) in
  Z.of_nat (length (files initial)) <= maxFiles options
  /\ getFiles (final (addFiles options counter [fileC]
                        (final (addFiles options counter
                                  [notes; fileA; fileB] initial))))
     = [fileA; fileB].
Proof.
  cbv zeta.
  assert (Hcap : Z.of_nat (length (files initial))
                 <= maxFiles (withMaxFiles 2 (defaults None)))
    by (simpl; lia).
  split; [exact Hcap |].
  rewrite <- (addFiles_split (withMaxFiles 2 (defaults None)) counter
                [notes; fileA; fileB] [fileC] initial Hcap).
  reflexivity.
Defined.

(** ** Identifiers *)

(** X13: tracking one valid file and removing it again by the
    identifier it was given restores the tracked list, provided no
    tracked entry already has this identifier; the two hooks are called
    with the file. *)
Theorem addFiles_then_removeFile (options : Options) (clock : nat -> Id)
  (f : File) (w : World) :
  accepts options f = true ->
  Z.of_nat (length (files w)) < maxFiles options ->
  (forall y, In y (files w) -> id y <> clock (ticks w)) ->
  let r1 := addFiles options clock [f] w in
  let r2 := removeFile options (clock (ticks w)) (final r1) in
  getFiles (final r1) = getFiles w ++ [f]
  /\ files (final r2) = files w
  /\ uploading (final r2) = uploading w
  /\ trace r1 = (if onFilesAdded options then [FilesAdded [f]] else [])
  /\ trace r2 = (if onFileRemoved options then [FileRemoved f] else []).
Proof.
  intros Hf Hcap Hfresh. cbv zeta.
  assert (Hkept : admitted options w [f] = [f]).
  { rewrite admitted_within by lia. simpl. rewrite Hf.
    destruct (Z.to_nat (maxFiles options - Z.of_nat (length (files w))))
      eqn:E; [lia | simpl; now rewrite firstn_nil]. }
  assert (Hover : overCapacity options w (filter (accepts options) [f])
                  = false).
  { unfold overCapacity. simpl. rewrite Hf. simpl.
    rewrite Z.gtb_ltb. apply Z.ltb_ge. lia. }
  assert (Hrej : rejection options f = []).
  { pose proof (rejection_valid options [f]) as H. simpl in H.
    rewrite Hf in H. simpl in H. now rewrite app_nil_r in H. }
  rewrite addFiles_run, Hkept, Hover. cbn [final trace flat_map wrap length].
  rewrite Hrej. cbn [app].
  rewrite (removeFile_found options (clock (ticks w)) _ (files w)
             {| file := f; id := clock (ticks w); uploaded := false;
                progress := 0%Q |} []);
    [| reflexivity | reflexivity | exact Hfresh].
  unfold getFiles. cbn [final trace files setFiles uploading file].
  rewrite map_app, !app_nil_r. cbn [map file].
  repeat split. now destruct (onFilesAdded options).
Qed.

Lemma addFiles_then_removeFile_witness :
  let options := defaults None in
  let w := session options counter [AddFiles [fileA]] initial in
  (accepts options fileB = true
   /\ Z.of_nat (length (files w)) < maxFiles options
   /\ (forall y, In y (files w) -> id y <> counter (ticks w)))
  /\ files (final (removeFile options (counter (ticks w))
                     (final (addFiles options counter [fileB] w))))
     = files w.
Proof.
  cbv zeta.
  set (w := session (defaults None) counter [AddFiles [fileA]] initial).
  assert (Hcap : Z.of_nat (length (files w)) < maxFiles (defaults None))
    by reflexivity.
  assert (Hfresh : forall y, In y (files w) -> id y <> counter (ticks w))
    by (intros y [<- | []]; discriminate).
  split; [repeat split; assumption |].
  exact (proj1 (proj2 (addFiles_then_removeFile (defaults None) counter
                         fileB w eq_refl Hcap Hfresh))).
Defined.

Lemma map_id_wrap (clock : nat -> Id) (l : list File) :
  forall k, map id (wrap clock k l) = map clock (seq k (length l)).
Proof.
  induction l as [| f l IH]; intros k; simpl; [| rewrite IH]; reflexivity.
Qed.

Lemma NoDup_map_clock (clock : nat -> Id) (l : list nat) :
  (forall i j, clock i = clock j -> i = j) ->
  NoDup l -> NoDup (map clock l).
Proof.
  intros Hinj. induction 1 as [| k l Hk _ IH]; simpl; constructor;
    [| assumption].
  rewrite in_map_iff. intros [j [Hj Hin]]. apply Hinj in Hj. now subst.
Qed.

Lemma call_issued (options : Options) (clock : nat -> Id) (c : Call)
  (w : World) :
  (forall i j, clock i = clock j -> i = j) ->
  issued clock w -> issued clock (final (call options clock c w)).
Proof.
  intros Hinj [Hnd Hold]. destruct c as [batch | fileId | |]; cbn [call].
  - rewrite addFiles_run. unfold issued. cbn [final files ticks].
    rewrite map_app, map_id_wrap. split.
    + apply NoDup_app; [assumption | |].
      * apply NoDup_map_clock; [assumption | apply seq_NoDup].
      * intros i Hi Hnew. destruct (Hold i Hi) as [k [Hk ->]].
        apply in_map_iff in Hnew. destruct Hnew as [j [Hj Hin]].
        apply Hinj in Hj. subst j. apply in_seq in Hin. lia.
    + intros i Hi. apply in_app_or in Hi. destruct Hi as [Hi | Hi].
      * destruct (Hold i Hi) as [k [Hk ->]]. exists k. split; [lia | easy].
      * apply in_map_iff in Hi. destruct Hi as [j [Hj Hin]].
        apply in_seq in Hin. exists j. split; [lia | easy].
  - destruct (removeFile_cases options fileId w)
      as [H | [pre [o [post [Hfiles H]]]]]; rewrite H;
      unfold issued; cbn [final files setFiles ticks]; [now split |].
    rewrite Hfiles, map_app in Hnd, Hold. simpl in Hnd, Hold.
    rewrite map_app. split; [now apply NoDup_remove_1 in Hnd |].
    intros i Hi. apply Hold. apply in_app_or in Hi. apply in_or_app.
    destruct Hi as [Hi | Hi]; [now left | right; now right].
  - unfold issued. rewrite startUpload_ticks.
    rewrite (proj2 (startUpload_shape options w)). now split.
  - unfold clear, issued. prim. simpl. split; [constructor | intros i []].
Qed.

(** X14: when the environment never yields the same identifier twice,
    the tracked entries have pairwise distinct identifiers after any
    sequence of calls on a new widget. *)
Theorem identifiers_distinct (options : Options) (clock : nat -> Id)
  (cs : list Call) :
  (forall i j, clock i = clock j -> i = j) ->
  NoDup (map id (files (session options clock cs initial))).
Proof.
  intros Hinj.
  assert (H : forall w, issued clock w ->
                        issued clock (session options clock cs w)).
  { induction cs as [| c cs IH]; intros w Hw; [exact Hw |].
    simpl. apply IH. now apply call_issued. }
  apply H. split; [constructor | intros i []].
Qed.

Lemma identifiers_distinct_witness :
  (forall i j, counter i = counter j -> i = j)
  /\ NoDup (map id (files (session (defaults (Some steady)) counter
                             [AddFiles [fileA; fileA]; RemoveFile 0;
                              StartUpload; AddFiles [fileA]] initial))).
Proof.
  assert (Hinj : forall i j, counter i = counter j -> i = j)
    by (intros i j H; now apply Nat2Z.inj).
  split; [exact Hinj |].
  exact (identifiers_distinct (defaults (Some steady)) counter _ Hinj).
Defined.

(** X15: when the tracked identifiers are distinct, [removeFile(fileId)]
    leaves no entry with this identifier, so that a second call with the
    same identifier changes nothing and calls no hook. *)
Theorem removeFile_twice (options : Options) (fileId : Id) (w : World) :
  NoDup (map id (files w)) ->
  let w1 := final (removeFile options fileId w) in
  (forall o, In o (files w1) -> id o <> fileId)
  /\ removeFile options fileId w1 = mkRun (Normal tt) w1 [].
Proof.
  intros Hnd. cbv zeta.
  assert (Hgone : forall o,
             In o (files (final (removeFile options fileId w))) ->
             id o <> fileId).
  { destruct (existsb (fun o => id o =? fileId) (files w)) eqn:E.
    - apply existsb_exists in E.
      destruct (first_split (fun f => id f =? fileId) (files w) E)
        as [pre [x [post [Hw [Hx Hpre]]]]].
      apply Z.eqb_eq in Hx.
      rewrite (removeFile_found options fileId w pre x post Hw Hx)
        by (intros y Hy; apply Z.eqb_neq; now apply Hpre).
      cbn [final files setFiles]. intros o Ho Heq.
      rewrite Hw, map_app in Hnd. simpl in Hnd.
      apply NoDup_remove_2 in Hnd. apply Hnd.
      rewrite <- map_app, Hx, <- Heq. now apply in_map.
    - rewrite removeFile_absent.
      + cbn [final]. intros o Ho. apply Z.eqb_neq.
        destruct (id o =? fileId) eqn:Eo; [| reflexivity].
        rewrite <- E. symmetry. apply existsb_exists. now exists o.
      + intros o Ho. apply Z.eqb_neq.
        destruct (id o =? fileId) eqn:Eo; [| reflexivity].
        rewrite <- E. symmetry. apply existsb_exists. now exists o. }
  split; [exact Hgone | now apply removeFile_absent].
Qed.

Lemma removeFile_twice_witness :
  let options := defaults None in
  let w := session options counter [AddFiles [fileA; fileB]] initial in
  NoDup (map id (files w))
  /\ (let w1 := final (removeFile options 0 w) in
      removeFile options 0 w1 = mkRun (Normal tt) w1 []).
Proof.
  cbv zeta.
  set (w := session (defaults None) counter [AddFiles [fileA; fileB]] initial).
  assert (Hnd : NoDup (map id (files w))).
  { repeat constructor; simpl; intros H;
      repeat (destruct H as [H | H]; try discriminate H); exact H. }
  split; [exact Hnd |].
  exact (proj2 (removeFile_twice (defaults None) 0 w Hnd)).
Defined.

(** ** The controls on the page *)

Lemma bindP_eq {A B : Type} (m : Dom.P A) (k : A -> Dom.P B) (p : Dom.Page) :
  Dom.bindP m k p
  = match m p with
    | Dom.mkPageRun (Normal a) p1 t1 =>
        match k a p1 with
        | Dom.mkPageRun c p2 t2 => Dom.mkPageRun c p2 (t1 ++ t2)
        end
    | Dom.mkPageRun (Throw e) p1 t1 => Dom.mkPageRun (Throw e) p1 t1
    | Dom.mkPageRun Suspended p1 t1 => Dom.mkPageRun Suspended p1 t1
    | Dom.mkPageRun OutOfFuel p1 t1 => Dom.mkPageRun OutOfFuel p1 t1
    end.
Proof. reflexivity. Qed.

Lemma lift_eq {A : Type} (m : M A) (p : Dom.Page) :
  Dom.lift m p
  = match m (Dom.logic p) with
    | mkRun c w t => Dom.mkPageRun c (Dom.mkPage w (Dom.controls p)) t
    end.
Proof. reflexivity. Qed.

Ltac primP :=
  cbv beta iota zeta delta
    [Dom.retP Dom.write Dom.tryCatchP Dom.tryFinallyP
     get modify emit ret throw rethrow suspend outOfFuel when
     Dom.logic Dom.controls].

Ltac runP := repeat ((rewrite bindP_eq || rewrite lift_eq); primP).

Lemma updateUI_run (p : Dom.Page) :
  Dom.updateUI p
  = Dom.mkPageRun (Normal tt)
      (Dom.mkPage (Dom.logic p) (Dom.refresh (Dom.logic p) (Dom.controls p)))
      [].
Proof.
  unfold Dom.updateUI, Dom.refresh. runP.
  destruct p as [w c]. cbn [Dom.logic Dom.controls].
  destruct (0 <? Z.of_nat (length (files w))); runP; reflexivity.
Qed.

Lemma page_addFiles_run (options : Options) (clock : nat -> Id)
  (batch : list File) (p : Dom.Page) :
  Dom.addFiles options clock batch p
  = let r := addFiles options clock batch (Dom.logic p) in
    Dom.mkPageRun (completion r)
      (Dom.mkPage (final r) (Dom.refresh (final r) (Dom.controls p)))
      (trace r).
Proof.
  cbv zeta. rewrite addFiles_run. unfold Dom.addFiles, admitted, overCapacity.
  destruct p as [w c].
  rewrite bindP_eq, lift_eq, filterM_validateFile. primP.
  rewrite bindP_eq, lift_eq. primP.
  set (valid := filter (accepts options) batch).
  rewrite bindP_eq.
  destruct (Z.of_nat (length (files w)) + Z.of_nat (length valid)
              >? maxFiles options).
  - rewrite bindP_eq, lift_eq, showError_run. primP.
    rewrite bindP_eq, lift_eq, forEach_push. primP.
    rewrite bindP_eq, updateUI_run. primP.
    rewrite lift_eq. primP.
    destruct (onFilesAdded options && _); reflexivity.
  - primP. rewrite bindP_eq, lift_eq, forEach_push. primP.
    rewrite bindP_eq, updateUI_run. primP.
    rewrite lift_eq. primP.
    destruct (onFilesAdded options && _); rewrite ?app_nil_r; reflexivity.
Qed.

Lemma page_removeFile_run (options : Options) (fileId : Id) (p : Dom.Page) :
  Dom.removeFile options fileId p
  = let r := removeFile options fileId (Dom.logic p) in
    Dom.mkPageRun (completion r)
      (Dom.mkPage (final r)
         (if Js.findIndex (fun f => id f =? fileId) (files (Dom.logic p))
               >? -1
          then Dom.refresh (final r) (Dom.controls p)
          else Dom.controls p))
      (trace r).
Proof.
  cbv zeta. unfold Dom.removeFile, removeFile. destruct p as [w c].
  run. runP.
  destruct (Js.findIndex (fun f => id f =? fileId) (files w) >? -1);
    [| reflexivity].
  run. runP. rewrite updateUI_run. primP. rewrite lift_eq. primP.
  destruct (onFileRemoved options); [| reflexivity].
  destruct (nth_error (files w) (Z.to_nat _)); reflexivity.
Qed.

Lemma page_clear_run (p : Dom.Page) :
  Dom.clear p
  = Dom.mkPageRun (Normal tt)
      (Dom.mkPage (final (clear (Dom.logic p)))
         (Dom.refresh (final (clear (Dom.logic p))) (Dom.controls p)))
      [].
Proof.
  unfold Dom.clear, clear. destruct p as [w c]. runP.
  rewrite updateUI_run. reflexivity.
Qed.

(** The controls after [startUpload], given those before and the run. *)
Lemma page_startUpload_run (options : Options) (p : Dom.Page) :
  Dom.startUpload options p
  = let r := startUpload options (Dom.logic p) in
    Dom.mkPageRun (completion r)
      (Dom.mkPage (final r)
         (match onUpload options with
          | None => Dom.controls p
          | Some _ =>
              if uploading (Dom.logic p) then Dom.controls p
              else
                match completion r with
                | Normal _ | Throw _ =>
                    Dom.setProgressDisplay "none"
                      (Dom.setUploadDisabled false
                         (Dom.setProgressDisplay "block"
                            (Dom.setUploadDisabled true (Dom.controls p))))
                | _ =>
                    Dom.setProgressDisplay "block"
                      (Dom.setUploadDisabled true (Dom.controls p))
                end
          end))
      (trace r).
Proof.
  cbv zeta. unfold Dom.startUpload, startUpload. destruct p as [w c].
  run. runP.
  destruct (onUpload options) as [fn |]; [| reflexivity].
  destruct (uploading w); [reflexivity |].
  run. runP. cbv beta iota zeta delta [tryCatch tryFinally]. run. runP.
  destruct (uploadLoop options fn (S (length (files w))) 0
              (setUploading true w)) as [[[] | [e |] | |] w1 t1]; runP;
    try reflexivity.
  - destruct (onUploadComplete options); run; runP; reflexivity.
  - rewrite showError_run. primP. reflexivity.
Qed.

Lemma handle_logic (options : Options) (clock : nat -> Id) (a : Dom.Action)
  (p : Dom.Page) :
  Dom.logic (Dom.pageFinal (Dom.handle options clock a p))
  = session options clock (Dom.callOf a) (Dom.logic p)
  /\ Dom.pageTrace (Dom.handle options clock a p)
     = sessionTrace options clock (Dom.callOf a) (Dom.logic p).
Proof.
  destruct a as [| | dropped | selected | | fileId |];
    cbn [Dom.handle Dom.callOf session sessionTrace call];
    rewrite ?app_nil_r.
  - now split.
  - now split.
  - unfold Dom.handleDrop. rewrite bindP_eq. primP.
    rewrite page_addFiles_run. cbv zeta.
    cbn [Dom.pageFinal Dom.pageTrace Dom.logic]. now split.
  - unfold Dom.handleFileSelect. rewrite page_addFiles_run. now split.
  - rewrite page_startUpload_run. now split.
  - rewrite page_removeFile_run. now split.
  - rewrite page_clear_run. unfold clear. prim. now split.
Qed.

Lemma refresh_consistent (w w' : World) (c : Dom.Controls) :
  uploading w' = uploading w ->
  Dom.consistent (Dom.mkPage w c) ->
  Dom.consistent (Dom.mkPage w' (Dom.refresh w' c)).
Proof.
  unfold Dom.consistent, Dom.refresh. cbn [Dom.logic Dom.controls].
  intros Hup [_ [H2 H3]]. rewrite Hup.
  destruct (0 <? Z.of_nat (length (files w'))); now repeat split.
Qed.

Lemma removeFile_uploading (options : Options) (fileId : Id) (w : World) :
  uploading (final (removeFile options fileId w)) = uploading w.
Proof.
  destruct (removeFile_cases options fileId w)
    as [H | [pre [o [post [_ H]]]]]; now rewrite H.
Qed.

Lemma handle_consistent (options : Options) (clock : nat -> Id)
  (a : Dom.Action) (p : Dom.Page) :
  Dom.consistent p ->
  Dom.consistent (Dom.pageFinal (Dom.handle options clock a p)).
Proof.
  intros Hp. destruct p as [w c].
  destruct a as [| | dropped | selected | | fileId |]; cbn [Dom.handle].
  - exact Hp.
  - exact Hp.
  - unfold Dom.handleDrop. rewrite bindP_eq. primP.
    rewrite page_addFiles_run. cbv zeta. cbn [Dom.pageFinal Dom.logic
                                               Dom.controls].
    apply (refresh_consistent w).
    + rewrite addFiles_run. reflexivity.
    + exact Hp.
  - unfold Dom.handleFileSelect. rewrite page_addFiles_run. cbv zeta.
    cbn [Dom.pageFinal Dom.logic Dom.controls].
    apply (refresh_consistent w); [| exact Hp].
    rewrite addFiles_run. reflexivity.
  - rewrite page_startUpload_run. cbv zeta.
    cbn [Dom.pageFinal Dom.logic Dom.controls].
    destruct (onUpload options) as [fn |] eqn:Hfn;
      [| now rewrite startUpload_guard by (now left)].
    destruct (uploading w) eqn:Hw;
      [rewrite startUpload_guard by (now right); exact Hp |].
    destruct Hp as [H1 _]. cbn [Dom.logic Dom.controls] in H1.
    pose proof (uploadRest_length options fn (calls w) (files w)) as Hlen.
    rewrite (startUpload_run options fn w Hfn Hw). cbv zeta.
    destruct (outcome (uploadRest options fn (calls w) (files w)))
    as [? | [? |] | |];
      unfold Dom.consistent;
      cbn [completion final Dom.logic Dom.controls settled files uploading
             Dom.setProgressDisplay Dom.setUploadDisabled
             Dom.controlsDisplay Dom.uploadDisabled Dom.progressDisplay];
      rewrite Hlen; now repeat split.
  - rewrite page_removeFile_run. cbv zeta.
    cbn [Dom.pageFinal Dom.logic Dom.controls].
    destruct (Js.findIndex (fun f => id f =? fileId) (files w) >? -1) eqn:E.
    + apply (refresh_consistent w); [| exact Hp].
      apply removeFile_uploading.
    + assert (Hsame : removeFile options fileId w = mkRun (Normal tt) w []).
      { unfold removeFile. run. now rewrite E. }
      rewrite Hsame. exact Hp.
  - rewrite page_clear_run. cbn [Dom.pageFinal].
    apply (refresh_consistent w); [| exact Hp].
    unfold clear. prim. reflexivity.
Qed.

Lemma interact_consistent (options : Options) (clock : nat -> Id)
  (actions : list Dom.Action) :
  forall p,
    Dom.consistent p ->
    Dom.consistent (Dom.interact options clock actions p).
Proof.
  induction actions as [| a actions IH]; intros p Hp; [exact Hp |].
  simpl. apply IH. now apply handle_consistent.
Qed.

Lemma initialPage_consistent : Dom.consistent Dom.initialPage.
Proof. repeat split. Qed.

(** X16: the writes to the page never influence the controller: after
    any sequence of user actions, the state of the controller is the
    one the corresponding calls of [addFiles], [startUpload],
    [removeFile] and [clear] produce, drag-over and drag-leave events
    changing nothing; each action calls the hooks as these calls do. *)
Theorem interact_logic (options : Options) (clock : nat -> Id)
  (actions : list Dom.Action) (p : Dom.Page) :
  Dom.logic (Dom.interact options clock actions p)
  = session options clock (flat_map Dom.callOf actions) (Dom.logic p)
  /\ forall a,
       Dom.pageTrace (Dom.handle options clock a p)
       = sessionTrace options clock (Dom.callOf a) (Dom.logic p).
Proof.
  split; [| intros a; apply handle_logic].
  revert p. induction actions as [| a actions IH]; intros p; [reflexivity |].
  cbn [Dom.interact flat_map]. rewrite IH.
  rewrite (proj1 (handle_logic options clock a p)).
  generalize (Dom.logic p) as w. generalize (flat_map Dom.callOf actions).
  generalize (Dom.callOf a) as cs.
  induction cs as [| c cs IHcs]; intros l w; [reflexivity |].
  simpl. apply IHcs.
Qed.

(** X17: the box with the upload button is shown exactly when files are
    tracked: after any sequence of user actions on a new widget, its
    display is 'block' if the tracked list is not empty and 'none' if
    it is. *)
Theorem controls_shown_when_tracking (options : Options) (clock : nat -> Id)
  (actions : list Dom.Action) :
  let p := Dom.interact options clock actions Dom.initialPage in
  Dom.controlsDisplay (Dom.controls p)
  = match getFiles (Dom.logic p) with
    | [] => "none"%string
    | _ :: _ => "block"%string
    end.
Proof.
  cbv zeta.
  destruct (interact_consistent options clock actions Dom.initialPage
              initialPage_consistent) as [H _].
  rewrite H. unfold getFiles.
  now destruct (files (Dom.logic (Dom.interact options clock actions
                                    Dom.initialPage))).
Qed.

(** X18: the upload button is disabled exactly while the widget is
    uploading, and the progress box is shown exactly then: after any
    sequence of user actions on a new widget, [uploadBtn.disabled]
    equals [this.uploading] and the display of the progress box is
    'block' if the widget is uploading and 'none' if not. *)
Theorem controls_busy_when_uploading (options : Options) (clock : nat -> Id)
  (actions : list Dom.Action) :
  let p := Dom.interact options clock actions Dom.initialPage in
  Dom.uploadDisabled (Dom.controls p) = uploading (Dom.logic p)
  /\ Dom.progressDisplay (Dom.controls p)
     = (if uploading (Dom.logic p) then "block"%string else "none"%string).
Proof.
  cbv zeta.
  destruct (interact_consistent options clock actions Dom.initialPage
              initialPage_consistent) as [_ H].
  exact H.
Qed.

(** ** Which file a progress report is about *)

Lemma attributed_progress (options : Options) (f : File) (ps : list Q)
  (tr : list Event) :
  attributed (Some f) tr ->
  attributed (Some f) (progressEvents options f ps ++ tr).
Proof.
  intros H. unfold progressEvents.
  destruct (onUploadProgress options); [| exact H].
  induction ps as [| p ps IH]; [exact H |].
  simpl. split; [reflexivity | exact IH].
Qed.

Lemma silent_app (a b : list Event) : silent (a ++ b) = silent a && silent b.
Proof.
  induction a as [| e a IH]; [reflexivity |].
  destruct e; simpl; (exact IH || reflexivity).
Qed.

Lemma attributed_silent (a b : list Event) (current : option File) :
  silent a = true -> attributed current b -> attributed current (a ++ b).
Proof.
  induction a as [| e a IH]; intros Ha Hb; [exact Hb |].
  destruct e; simpl in *; (discriminate Ha || now apply IH).
Qed.

Lemma silent_report (options : Options) (message : string) :
  silent [report options message] = true.
Proof. unfold report. now destruct (onError options). Qed.

Lemma silent_rejections (options : Options) (l : list File) :
  silent (flat_map (rejection options) l) = true.
Proof.
  induction l as [| f l IH]; [reflexivity |].
  simpl. rewrite silent_app, IH, andb_true_r. unfold rejection.
  destruct (negb _); [apply silent_report |].
  destruct (_ >? _); [apply silent_report | reflexivity].
Qed.

Lemma call_silent (options : Options) (clock : nat -> Id) (c : Call)
  (w : World) :
  uploading w = true -> silent (trace (call options clock c w)) = true.
Proof.
  intros Hw. destruct c as [batch | fileId | |]; cbn [call].
  - rewrite addFiles_run. cbn [trace].
    rewrite !silent_app, silent_rejections.
    destruct (overCapacity options w _);
      destruct (onFilesAdded options && _);
      rewrite ?silent_report; reflexivity.
  - destruct (removeFile_cases options fileId w)
      as [H | [pre [o [post [_ H]]]]]; rewrite H; cbn [trace];
      [reflexivity |].
    now destruct (onFileRemoved options).
  - now rewrite startUpload_guard by (now right).
  - reflexivity.
Qed.

Section Punctual.

Variable options : Options.
Variable clock : nat -> Id.
Variable meanwhile : Meanwhile.
Hypothesis Hpunctual : punctual meanwhile.

Lemma progressCallback_calm (held : Closure) (p : Q) (w : World) :
  Async.progressCallback options held p w
  = mkRun (Normal tt) (final (Async.progressCallback options held p w))
      (progressEvents options (target held) [p])
  /\ uploading (final (Async.progressCallback options held p w)) = uploading w.
Proof.
  unfold Async.progressCallback, progressEvents, mutate.
  destruct (place held) as [i |]; destruct (onUploadProgress options);
    run; now split.
Qed.

Lemma interrupts_punctual (xs : list Interruption) :
  (forall x, In x xs -> exists c, x = Method c) ->
  forall (held : Closure) (earlier : list Closure) (w : World),
    uploading w = true ->
    let r := Async.interrupts options clock xs held earlier w in
    uploading (final r) = true
    /\ silent (trace r) = true
    /\ exists cs, completion r = Normal cs /\ target (fst cs) = target held.
Proof.
  induction xs as [| x xs IH]; intros Hxs held earlier w Hw; cbv zeta.
  - cbn [Async.interrupts]. prim. cbn. repeat split; [exact Hw |].
    now exists (held, earlier).
  - destruct (Hxs x (or_introl eq_refl)) as [c ->].
    cbn [Async.interrupts Async.interrupt]. run. unfold Async.invoke.
    destruct (call_busy options clock c w Hw) as [Hb _].
    pose proof (call_silent options clock c w Hw) as Hs.
    destruct (call options clock c w) as [c1 w1 t1].
    cbn [final trace] in Hb, Hs. run. cbn [fst snd].
    destruct (IH (fun y Hy => Hxs y (or_intror Hy))
                (moved c w held) (map (moved c w) earlier) w1 Hb)
      as [I1 [I2 [cs [I3 I4]]]].
    destruct (Async.interrupts options clock xs (moved c w held)
                (map (moved c w) earlier) w1) as [c2 w2 t2].
    cbn [final trace completion] in *.
    repeat split; [exact I1 | |].
    + rewrite app_nil_r. simpl. rewrite silent_app, Hs. exact I2.
    + exists cs. split; [exact I3 | exact I4].
Qed.


Lemma reporting_punctual (ps : list Q) :
  forall (k j : nat) (held : Closure) (earlier : list Closure) (w : World),
    uploading w = true ->
    let r := Async.reporting options clock meanwhile k j ps held earlier w in
    uploading (final r) = true
    /\ (forall tail,
          attributed (Some (target held)) tail ->
          attributed (Some (target held)) (trace r ++ tail))
    /\ exists cs, completion r = Normal cs.
Proof.
  induction ps as [| p ps IH]; intros k j held earlier w Hw; cbv zeta;
    cbn [Async.reporting]; rewrite bind_eq;
    destruct (interrupts_punctual (meanwhile k j) (Hpunctual k j)
                held earlier w Hw) as [I1 [I2 [cs [I3 I4]]]];
    destruct (Async.interrupts options clock (meanwhile k j) held earlier w)
      as [c1 w1 t1];
    cbn [final trace completion] in I1, I2, I3; subst c1.
  - prim. cbn [final trace completion]. rewrite app_nil_r.
    repeat split; [exact I1 | | now exists cs].
    intros tail Ht. now apply attributed_silent.
  - rewrite bind_eq.
    destruct (progressCallback_calm (fst cs) p w1) as [P1 P2].
    rewrite P1.
    set (w2 := final (Async.progressCallback options (fst cs) p w1)) in *.
    destruct (IH k (S j) (fst cs) (snd cs) w2) as [R1 [R2 R3]];
      [now rewrite P2 |].
    destruct (Async.reporting options clock meanwhile k (S j) ps (fst cs)
                (snd cs) w2) as [c3 w3 t3].
    cbn [final trace completion] in *.
    repeat split; [exact R1 | | exact R3].
    intros tail Ht. rewrite <- !app_assoc.
    apply attributed_silent; [exact I2 |].
    rewrite <- I4. apply attributed_progress. rewrite I4 in R2 |- *.
    now apply R2.
Qed.


Lemma awaitUpload_orderly (fn : UploadFn) (held : Closure)
  (earlier : list Closure) (w : World) :
  uploading w = true ->
  orderly (Async.awaitUpload options clock meanwhile fn held earlier w).
Proof.
  intros Hw. unfold Async.awaitUpload. run.
  set (w1 := {| files := files w; uploading := uploading w;
                ticks := ticks w; calls := S (calls w) |}).
  destruct (reporting_punctual (reports (fn (calls w) (target held)))
              (calls w) 0%nat held earlier w1 Hw) as [R1 [R2 [cs R3]]].
  destruct (Async.reporting options clock meanwhile (calls w) 0
              (reports (fn (calls w) (target held))) held earlier w1)
    as [c2 w2 t2].
  cbn [final trace completion] in R1, R2, R3. subst c2.
  assert (H : forall current tail,
             (forall c, attributed c tail) ->
             attributed current ((Upload (target held) :: t2) ++ tail)).
  { intros current tail Ht. cbn [app attributed]. now apply R2. }
  destruct (settles (fn (calls w) (target held))); prim;
    cbn [app]; rewrite ?app_nil_r; split; assumption.
Qed.

Lemma uploadFile_orderly (fn : UploadFn) (i : nat) (fileObj : FileObj)
  (earlier : list Closure) (w : World) :
  uploading w = true ->
  orderly (Async.uploadFile options clock meanwhile fn i fileObj earlier w).
Proof.
  intros Hw. unfold Async.uploadFile. prim. rewrite bind_eq.
  destruct (awaitUpload_orderly fn
              {| target := file fileObj; place := Some i |} earlier w Hw)
    as [A1 A2].
  destruct (Async.awaitUpload options clock meanwhile fn
              {| target := file fileObj; place := Some i |} earlier w)
    as [[cs | e | |] w1 t1]; cbn [final trace] in A1, A2.
  - run. unfold mutate.
    destruct (place (fst cs)); prim; cbn [app]; rewrite !app_nil_r;
      split; assumption.
  - rewrite app_nil_r. split; assumption.
  - split; assumption.
  - split; assumption.
Qed.

Lemma uploadLoop_orderly (fn : UploadFn) (fuel : nat) :
  forall (i : nat) (earlier : list Closure) (w : World),
    uploading w = true ->
    orderly (Async.uploadLoop options clock meanwhile fn fuel i earlier w).
Proof.
  induction fuel as [| fuel IH]; intros i earlier w Hw;
    cbn [Async.uploadLoop].
  - prim. split; [exact Hw | now intros current tail Ht].
  - run. destruct (nth_error (files w) i) as [fileObj |];
      [| prim; split; [exact Hw | now intros current tail Ht]].
    rewrite bind_eq.
    destruct (uploaded fileObj).
    + prim. destruct (IH (S i) earlier w Hw) as [L1 L2].
      destruct (Async.uploadLoop options clock meanwhile fn fuel (S i)
                  earlier w) as [c2 w2 t2].
      split; assumption.
    + destruct (uploadFile_orderly fn i fileObj earlier w Hw) as [U1 U2].
      destruct (Async.uploadFile options clock meanwhile fn i fileObj
                  earlier w) as [[earlier' | e | |] w1 t1];
        cbn [final trace] in U1, U2; try (split; assumption).
      destruct (IH (S i) earlier' w1 U1) as [L1 L2].
      destruct (Async.uploadLoop options clock meanwhile fn fuel (S i)
                  earlier' w1) as [c2 w2 t2].
      unfold orderly. cbn [final trace app] in *. split; [exact L1 |].
      intros current tail Ht. rewrite <- app_assoc. apply U2.
      intros c. now apply L2.
Qed.

End Punctual.

(** X19: in a run of [startUpload], whatever methods of the widget are
    called while it waits for the upload function, and provided that
    the upload function calls no progress callback after the promise of
    its invocation has settled, every call of the upload-progress hook
    comes after an invocation of the upload function and carries the
    file of the latest one: progress is never reported for a file other
    than the one being uploaded. *)
Theorem progress_reports_attributed (options : Options) (clock : nat -> Id)
  (meanwhile : Meanwhile) (fuel : nat) (w : World) :
  punctual meanwhile ->
  attributed None (trace (Async.startUpload options clock meanwhile fuel w)).
Proof.
  intros Hpunctual. unfold Async.startUpload. run.
  destruct (onUpload options) as [fn |]; [| exact I].
  destruct (uploading w); [exact I |].
  run.
  destruct (uploadLoop_orderly options clock meanwhile Hpunctual fn fuel 0 []
              (setUploading true w) eq_refl) as [_ L].
  destruct (Async.uploadLoop options clock meanwhile fn fuel 0 []
              (setUploading true w)) as [[[] | [e |] | |] w1 t1];
    cbn [trace] in L; run; rewrite ?showError_run;
    try destruct (onUploadComplete options); run;
    cbn [trace app]; rewrite ?app_nil_r.
  all: try (rewrite <- (app_nil_r t1); now apply L).
  - now apply L.
  - apply L. intros c. unfold report. now destruct (onError options).
  - apply L. intros c. unfold report. now destruct (onError options).
Qed.

Lemma progress_reports_attributed_witness :
  let options := defaults (Some steady) in
  let w := session options counter [AddFiles [fileA; fileB; fileC]] initial in
  punctual removesFirst
  /\ attributed None
       (trace (Async.startUpload options counter removesFirst 4 w)).
Proof.
  cbv zeta.
  assert (Hpunctual : punctual removesFirst).
  { intros [| k] [| j] x H; simpl in H; try contradiction.
    destruct H as [<- | []]. now exists (RemoveFile 0). }
  split; [exact Hpunctual |].
  exact (progress_reports_attributed (defaults (Some steady)) counter
           removesFirst 4 _ Hpunctual).
Defined.

(** An upload function that reports about a.jpg once more while b.jpg
    is uploaded: the upload-progress hook is called with a.jpg after
    the upload function was invoked on b.jpg. *)
Example late_report :
  let options := defaults (Some steady) in
  let w := session options counter [AddFiles [fileA; fileB]] initial in
  let r := Async.startUpload options counter throttled 3 w in
  trace r
  = [Upload fileA; UploadProgress fileA 50%Q; UploadProgress fileA 100%Q;
     Upload fileB; UploadProgress fileA 100%Q;
     UploadProgress fileB 50%Q; UploadProgress fileB 100%Q;
     UploadComplete [fileA; fileB]]
  /\ ~ attributed None (trace r).
Proof.
  cbv zeta. split; [reflexivity |].
  intros H. simpl in H. destruct H as [_ [_ [H _]]]. discriminate H.
Qed.

(** ** The size limit in the error message *)

Lemma numberToString_digit :
  Js.numberToString 0 = "0"%string.
Proof. reflexivity. Qed.

Lemma append_associative (a b c : string) :
  ((a ++ b) ++ c)%string = (a ++ b ++ c)%string.
Proof. induction a as [| ch a IH]; simpl; [| rewrite IH]; reflexivity. Qed.

(** X20: the message about a file that is too large gives a limit of a
    whole number of megabytes below 10^21 (from where on [toFixed]
    switches to exponent notation) as that number with one decimal
    zero. *)
Theorem tooLargeMessage_whole_megabytes (options : Options) (f : File)
  (n : Z) :
  0 <= n < 10 ^ 21 ->
  maxFileSize options = n * (1024 * 1024) ->
  tooLargeMessage options f
  = (name f ++ ": File too large (max "
       ++ Js.numberToString n ++ ".0MB)")%string.
Proof.
  intros Hn Hmax. unfold tooLargeMessage, Js.toFixed1. rewrite Hmax.
  cbv zeta.
  replace (n * (1024 * 1024) <? 0) with false
    by (symmetry; apply Z.ltb_ge; lia).
  replace ((20 * Z.abs (n * (1024 * 1024)) + 1024 * 1024)
             / (2 * (1024 * 1024))) with (10 * n).
  - replace (10 * n / 10) with n by (apply Z.div_unique with 0; lia).
    replace ((10 * n) mod 10) with 0 by (apply Z.mod_unique with n; lia).
    rewrite numberToString_digit. cbn [append].
    now rewrite append_associative.
  - rewrite Z.abs_eq by lia.
    apply Z.div_unique with (1024 * 1024); lia.
Qed.

Lemma tooLargeMessage_whole_megabytes_witness :
  let options := defaults None in
  (0 <= 10 < 10 ^ 21 /\ maxFileSize options = 10 * (1024 * 1024))
  /\ tooLargeMessage options poster
     = "poster.jpg: File too large (max 10.0MB)"%string.
Proof.
  cbv zeta. split; [split; [lia | reflexivity] |].
  rewrite (tooLargeMessage_whole_megabytes (defaults None) poster 10);
    [reflexivity | lia | reflexivity].
Defined.

(** X21: a limit below 52429 bytes (0.05 megabytes) is rounded down to
    nothing: the message about a file that is too large then says
    'max 0.0MB'. *)
Theorem tooLargeMessage_small_limit (options : Options) (f : File) :
  0 <= maxFileSize options < 52429 ->
  tooLargeMessage options f
  = (name f ++ ": File too large (max 0.0MB)")%string.
Proof.
  intros Hmax. unfold tooLargeMessage, Js.toFixed1. cbv zeta.
  replace (maxFileSize options <? 0) with false
    by (symmetry; apply Z.ltb_ge; lia).
  rewrite Z.abs_eq by lia.
  rewrite (Z.div_small (20 * maxFileSize options + 1024 * 1024)) by lia.
  reflexivity.
Qed.

Lemma tooLargeMessage_small_limit_witness :
  let options := withMaxFileSize 50000 (defaults None) in
  0 <= maxFileSize options < 52429
  /\ trace (addFiles options counter [fileA] initial)
     = [Error "a.jpg: File too large (max 0.0MB)"].
Proof.
  cbv zeta.
  assert (Hmax : 0 <= maxFileSize (withMaxFileSize 50000 (defaults None))
                 < 52429) by (simpl; lia).
  split; [exact Hmax |].
  rewrite addFiles_run. cbn [trace flat_map].
  unfold rejection. cbn [negb].
  replace (Js.includes
             (acceptedTypes (withMaxFileSize 50000 (defaults None)))
             (type fileA)) with true by reflexivity.
  replace (size fileA >? maxFileSize (withMaxFileSize 50000 (defaults None)))
    with true by reflexivity.
  cbn [negb].
  rewrite (tooLargeMessage_small_limit
             (withMaxFileSize 50000 (defaults None)) fileA Hmax).
  reflexivity.
Defined.
